(** * tweety-backend: session tokens, reaction ledger and response cache

    A shallow embedding of the session/reaction consistency layer of the
    backend:

    - [src/db/schema.sql]: the tables [events], [event_likes], [user_tokens]
      with their PRIMARY KEY and UNIQUE constraints;
    - [src/models/eventModel.js]: [likeOrDislikeEvent], [getEventReactions];
    - [src/middleware/auth.js]: [generateAndStoreToken], [authenticateJWT],
      [revokeToken];
    - [src/middleware/cache.js]: [createCache], together with the route of
      [routes/v1/poznan.js] and [middleware/errorHandler.js] that run
      behind it;
    - [src/models/eventModel.js]: [createEvent], [getEventById],
      [getEventsReactions]; [src/routes/v1/events.js]: the like and
      dislike routes;
    - [src/models/userModel.js] and [src/routes/v1/auth.js]: the [users]
      table, registration, login, logout and the profile route.

    Conventions.  Every SQL statement of the source is one primitive of the
    [Db] monad (state: the three tables; output: the list of statements
    executed; failure: a thrown exception).  Instants ([Date.now()], ISO
    timestamps) are integers, milliseconds since the epoch; the ISO string
    the source stores is a rendering of that instant.  [uuidv4()] and
    [Date.now()] are inputs of the operation that calls them. *)

From Stdlib Require Import ZArith Ascii String DecimalString DecimalZ.
From stdpp Require Import base tactics option list strings gmap.

Local Open Scope string_scope.
Local Open Scope list_scope.
Local Open Scope Z_scope.

(** ** The relational store (db/schema.sql) *)

Module Store.

(** [events]: id TEXT PRIMARY KEY, stopId, type, description, timestamp,
    created_by. *)
Record event_row := {
  ev_id : string;
  ev_stopId : string;
  ev_type : string;
  ev_description : option string;
  ev_timestamp : Z;
  ev_created_by : option string
}.

(** [event_likes]: id TEXT PRIMARY KEY, event_id, user_id,
    reaction INTEGER (1 = like, -1 = dislike), created_at,
    UNIQUE(event_id, user_id). *)
Record event_like := {
  el_id : string;
  el_event_id : string;
  el_user_id : string;
  el_reaction : Z;
  el_created_at : Z
}.

(** [user_tokens]: id TEXT PRIMARY KEY, user_id, token, expires_at,
    issued_at. *)
Record user_token := {
  ut_id : string;
  ut_user_id : string;
  ut_token : string;
  ut_expires_at : Z;
  ut_issued_at : Z
}.

(** Tables are lists in rowid order. *)
Record store := {
  events : list event_row;
  event_likes : list event_like;
  user_tokens : list user_token
}.

Definition empty : store :=
  {| events := []; event_likes := []; user_tokens := [] |}.

Definition set_event_likes (l : list event_like) (s : store) : store :=
  {| events := events s; event_likes := l; user_tokens := user_tokens s |}.

Definition set_user_tokens (l : list user_token) (s : store) : store :=
  {| events := events s; event_likes := event_likes s; user_tokens := l |}.

Definition set_events (l : list event_row) (s : store) : store :=
  {| events := l; event_likes := event_likes s; user_tokens := user_tokens s |}.

Inductive table := Events | EventLikes | UserTokens.

(** One entry per statement sent to the store. *)
Inductive access :=
| Select (t : table)
| Insert (t : table)
| Update (t : table)
| Delete (t : table).

Definition is_write (a : access) : bool :=
  match a with Select _ => false | _ => true end.

Inductive exn :=
| SqliteConstraint (what : string)
| JsError (message : string).

(** The monad of store computations: the current tables in, the result
    or the thrown exception, the tables afterwards and the statements
    executed out. *)
Definition Db (A : Type) : Type := store -> (A + exn) * store * list access.

Definition ret {A} (a : A) : Db A := fun s => (inl a, s, []).

Definition throw {A} (e : exn) : Db A := fun s => (inr e, s, []).

Definition bind {A B} (m : Db A) (k : A -> Db B) : Db B :=
  fun s =>
    match m s with
    | (inl a, s1, t1) =>
        match k a s1 with
        | (r, s2, t2) => (r, s2, t1 ++ t2)
        end
    | (inr e, s1, t1) => (inr e, s1, t1)
    end.

Definition final {A} (r : (A + exn) * store * list access) : store := snd (fst r).
Definition result {A} (r : (A + exn) * store * list access) : A + exn := fst (fst r).
Definition trace {A} (r : (A + exn) * store * list access) : list access := snd r.

End Store.

Import Store.

#[global] Instance Db_ret : MRet Db := @ret.
#[global] Instance Db_bind : MBind Db := fun A B k m => bind m k.

(** Exposes the plumbing of [Db] in a goal. *)
Ltac db_simpl :=
  unfold mbind, mret, Db_bind, Db_ret, bind, ret in *.

(** ** Statements of the source, one primitive each *)

Module Sql.

(** [SELECT id FROM events WHERE id = ?] through [get]: the first
    matching row, if any. *)
Definition select_event_id (eventId : string) : Db (option string) :=
  fun s =>
    (inl (ev_id <$> (snd <$> list_find (fun e => ev_id e = eventId) (events s))),
     s, [Select Events]).

(** The position and the row of the reaction of [userId] on [eventId]. *)
Definition find_reaction (eventId userId : string) (l : list event_like)
  : option (nat * event_like) :=
  list_find (fun r => el_event_id r = eventId ∧ el_user_id r = userId) l.

(** [SELECT id, reaction FROM event_likes WHERE event_id = ? AND user_id = ?]
    through [get]. *)
Definition select_reaction (eventId userId : string) : Db (option event_like) :=
  fun s => (inl (snd <$> find_reaction eventId userId (event_likes s)),
            s, [Select EventLikes]).

(** [INSERT INTO event_likes (id, event_id, user_id, reaction, created_at)]:
    refused by the PRIMARY KEY on [id] and by UNIQUE(event_id, user_id).
    Foreign keys are declared but not enforced (no PRAGMA foreign_keys). *)
Definition insert_reaction (row : event_like) : Db unit :=
  fun s =>
    if bool_decide (el_id row ∈ el_id <$> event_likes s) then
      (inr (SqliteConstraint "event_likes.id"), s, [Insert EventLikes])
    else if bool_decide
              (Exists (fun r => el_event_id r = el_event_id row
                                ∧ el_user_id r = el_user_id row)
                      (event_likes s)) then
      (inr (SqliteConstraint "event_likes.event_id, event_likes.user_id"),
       s, [Insert EventLikes])
    else
      (inl tt, set_event_likes (event_likes s ++ [row]) s, [Insert EventLikes]).

Definition set_reaction (reaction created_at : Z) (id : string) (r : event_like)
  : event_like :=
  if decide (el_id r = id) then
    {| el_id := el_id r; el_event_id := el_event_id r; el_user_id := el_user_id r;
       el_reaction := reaction; el_created_at := created_at |}
  else r.

(** [UPDATE event_likes SET reaction = ?, created_at = ? WHERE id = ?]. *)
Definition update_reaction (reaction created_at : Z) (id : string) : Db unit :=
  fun s =>
    (inl tt,
     set_event_likes (set_reaction reaction created_at id <$> event_likes s) s,
     [Update EventLikes]).

(** [SUM(CASE WHEN reaction = v THEN 1 ELSE 0 END)] over a group of rows:
    NULL on the empty group. *)
Definition sum_case (v : Z) (rows : list event_like) : option Z :=
  match rows with
  | [] => None
  | _ => Some (foldr (fun r acc => (if bool_decide (el_reaction r = v) then 1 else 0) + acc)
                     0 rows)
  end.

Record sums_row := { likes_col : option Z; dislikes_col : option Z }.

(** The aggregate query of [getEventReactions]: one row, always. *)
Definition select_reaction_sums (eventId : string) : Db sums_row :=
  fun s =>
    let rows := filter (fun r => el_event_id r = eventId) (event_likes s) in
    (inl {| likes_col := sum_case 1 rows; dislikes_col := sum_case (-1) rows |},
     s, [Select EventLikes]).

(** [SELECT user_id, expires_at FROM user_tokens WHERE id = ? AND token = ?]
    through [get]. *)
Definition select_token (id token : string) : Db (option user_token) :=
  fun s =>
    (inl (snd <$> list_find (fun r => ut_id r = id ∧ ut_token r = token)
                               (user_tokens s)),
     s, [Select UserTokens]).

(** [INSERT INTO user_tokens (id, user_id, token, expires_at, issued_at)]:
    refused by the PRIMARY KEY on [id]. *)
Definition insert_token (row : user_token) : Db unit :=
  fun s =>
    if bool_decide (ut_id row ∈ ut_id <$> user_tokens s) then
      (inr (SqliteConstraint "user_tokens.id"), s, [Insert UserTokens])
    else
      (inl tt, set_user_tokens (user_tokens s ++ [row]) s, [Insert UserTokens]).

(** [DELETE FROM user_tokens WHERE token = ?]. *)
Definition delete_token (token : string) : Db unit :=
  fun s =>
    (inl tt,
     set_user_tokens (filter (fun r => ut_token r ≠ token) (user_tokens s)) s,
     [Delete UserTokens]).

End Sql.

(** ** models/eventModel.js *)

Module EventModel.
Import Sql.

Record LikeDislikeResult := { eventExists : bool; updated : bool }.

(** [likeOrDislikeEvent(eventId, userId, reaction)]; [uuid] is the value
    of [uuidv4()] and [now] the instant of [new Date()], both used only
    on the branches that call them. *)
Definition likeOrDislikeEvent (eventId userId : string) (reaction : Z)
    (uuid : string) (now : Z) : Db LikeDislikeResult :=
  event ← select_event_id eventId;
  match event with
  | None => mret {| eventExists := false; updated := false |}
  | Some _ =>
      existing ← select_reaction eventId userId;
      match existing with
      | None =>
          _ ← insert_reaction
                {| el_id := uuid; el_event_id := eventId; el_user_id := userId;
                   el_reaction := reaction; el_created_at := now |};
          mret {| eventExists := true; updated := false |}
      | Some ex =>
          if bool_decide (el_reaction ex ≠ reaction) then
            _ ← update_reaction reaction now (el_id ex);
            mret {| eventExists := true; updated := true |}
          else
            mret {| eventExists := true; updated := false |}
      end
  end.

Record reactions := { likes : Z; dislikes : Z }.

(** JavaScript [x || 0] on a nullable number. *)
Definition or_zero (x : option Z) : Z :=
  match x with
  | Some n => if bool_decide (n = 0) then 0 else n
  | None => 0
  end.

(** [getEventReactions(eventId)]. *)
Definition getEventReactions (eventId : string) : Db reactions :=
  row ← select_reaction_sums eventId;
  mret {| likes := or_zero (likes_col row); dislikes := or_zero (dislikes_col row) |}.

End EventModel.

(** ** JavaScript string helpers used by the source *)

Module Js.

(** [s.split(c)] for a one-character separator. *)
Fixpoint split (c : ascii) (s : string) : list string :=
  match s with
  | EmptyString => [EmptyString]
  | String a rest =>
      if Ascii.eqb a c then EmptyString :: split c rest
      else match split c rest with
           | x :: xs => String a x :: xs
           | [] => [String a EmptyString]
           end
  end.

(** [header.startsWith("Bearer ")]. *)
Definition startsWith (s p : string) : bool := String.prefix p s.

(** The bearer credential of an Authorization header, as the logout
    route computes it and as [authenticateJWT] does in two steps:
    [header.startsWith("Bearer ") ? header.split(" ")[1] : null]. *)
Definition bearer_token (header : string) : option string :=
  if startsWith header "Bearer " then split " " header !! 1%nat else None.

End Js.

(** ** middleware/auth.js *)

Module Jwt.
(** The claims [generateAndStoreToken] signs. *)
Record payload := { sub : string; jti : string; iat : Z; exp : Z }.
End Jwt.

Module Auth.
Import Sql.

(** [TOKEN_EXPIRES_IN]: 7 days, in seconds. *)
Definition TOKEN_EXPIRES_IN : Z := 7 * 24 * 60 * 60.

(** The three 401 answers of [authenticateJWT]. *)
Inductive auth_failure :=
| MissingCredential
| InvalidSignatureOrExpired
| NotRecognized.

(** The [error] field of the 401 body. *)
Definition error_message (f : auth_failure) : string :=
  match f with
  | MissingCredential => "Missing or invalid Authorization header"
  | InvalidSignatureOrExpired => "Invalid or expired token"
  | NotRecognized => "Token not recognized or revoked"
  end.

(** [Next id]: [req.user = { id }] and [next()];
    [Reject f]: [res.status(401).json({ error: error_message f })]. *)
Inductive auth_outcome :=
| Next (id : string)
| Reject (f : auth_failure).

Inductive logout_response :=
| LogoutUnauthorized (f : auth_failure)
| LogoutNoToken
| LogoutSuccess.

Section WithJsonwebtoken.

(** The [jsonwebtoken] package is a dependency, not code of the
    repository: [jwt.sign(payload, secret)] and
    [jwt.verify(token, secret)], the latter reading the clock itself
    ([clock] is [Date.now()] at the call) and throwing ([None]) on a bad
    signature, a missing secret or a passed [exp]. *)
Variable jwt_sign : Jwt.payload -> string -> string.
Variable jwt_verify : string -> option string -> Z -> option Jwt.payload.

(** [process.env.JWT_SECRET]. *)
Variable JWT_SECRET : option string.

(** [config.JWT_SECRET = process.env.JWT_SECRET || ""]. *)
Definition config_JWT_SECRET : string := default "" JWT_SECRET.

(** [generateAndStoreToken(userId, deviceInfo)]; [uuid] is [uuidv4()],
    [now] is [Date.now()]. *)
Definition generateAndStoreToken (userId deviceInfo : string)
    (uuid : string) (now : Z) : Db string :=
  let issuedAt := now / 1000 in
  let expiresAt := issuedAt + TOKEN_EXPIRES_IN in
  let tokenId := uuid in
  let payload :=
    {| Jwt.sub := userId; Jwt.jti := tokenId;
       Jwt.iat := issuedAt; Jwt.exp := expiresAt |} in
  if bool_decide (config_JWT_SECRET = "") then
    throw (JsError "JWT_SECRET is not set in environment.")
  else
    let token := jwt_sign payload config_JWT_SECRET in
    _ ← insert_token
          {| ut_id := tokenId; ut_user_id := userId; ut_token := token;
             ut_expires_at := expiresAt * 1000;
             ut_issued_at := issuedAt * 1000 |};
    mret token.

(** [authenticateJWT(req, res, next)] on [req.headers.authorization]; the
    store is initialised and its reads do not fail, so the outer [catch]
    is never entered. *)
Definition authenticateJWT (authorization : option string) (now : Z)
  : Db auth_outcome :=
  let header := default "" authorization in
  if negb (Js.startsWith header "Bearer ") then mret (Reject MissingCredential)
  else
    match Js.split " " header !! 1%nat with
    | None =>
        (* [jwt.verify(undefined, ...)] throws *)
        mret (Reject InvalidSignatureOrExpired)
    | Some token =>
        match jwt_verify token JWT_SECRET now with
        | None => mret (Reject InvalidSignatureOrExpired)
        | Some payload =>
            tokenRow ← select_token (Jwt.jti payload) token;
            match tokenRow with
            | None => mret (Reject NotRecognized)
            | Some _ => mret (Next (Jwt.sub payload))
            end
        end
    end.

(** [revokeToken(token)]. *)
Definition revokeToken (token : string) : Db unit := delete_token token.

(** [POST /v1/auth/logout]: [authenticateJWT], then the handler. *)
Definition logout (authorization : option string) (now : Z)
  : Db logout_response :=
  a ← authenticateJWT authorization now;
  match a with
  | Reject f => mret (LogoutUnauthorized f)
  | Next _ =>
      let header := default "" authorization in
      match Js.bearer_token header with
      | None | Some EmptyString => mret LogoutNoToken
      | Some token => _ ← revokeToken token; mret LogoutSuccess
      end
  end.

End WithJsonwebtoken.

End Auth.

(** ** middleware/cache.js, routes/v1/poznan.js, middleware/errorHandler.js *)

Module Cache.

#[local] Set Warnings "-register-all".

(** Response payloads. *)
Inductive json :=
| JNull
| JBool (b : bool)
| JNum (n : Z)
| JStr (s : string)
| JArr (items : list json)
| JObj (fields : list (string * json)).

(** JavaScript truthiness. *)
Definition truthy (v : json) : bool :=
  match v with
  | JNull => false
  | JBool b => b
  | JNum n => negb (bool_decide (n = 0))
  | JStr s => negb (bool_decide (s = ""))
  | JArr _ | JObj _ => true
  end.

(** A cache entry: [{ expires, value }]. *)
Record entry := { expires : Z; value : json }.

Record request := { method : string; originalUrl : string }.

(** What the client receives. *)
Record response := { status : Z; body : json }.

(** The response object while the request is processed: the status set
    so far and, once [createCache] has replaced [res.json], the key the
    replacement writes to. *)
Record res := { statusCode : Z; json_patch : option string }.

Definition fresh_res : res := {| statusCode := 200; json_patch := None |}.

(** A thrown error as [errorHandler] reads it. *)
Record js_error := {
  err_statusCode : option Z;
  err_status : option Z;
  err_message : string;
  err_stack : option string;
  err_details : option json
}.

(** The upstream step of the route ([axios.get] and the mapping): the
    mapped array, or the error it throws. *)
Inductive computed :=
| Computed (mapped : json)
| Failed (err : js_error).

Section WithTtl.

(** [createCache(ttlMs)]; [production] is
    [process.env.NODE_ENV === "production"]. *)
Variable ttlMs : Z.
Variable production : bool.

(** [res.json(body)] at instant [now]: the replacement installed by the
    middleware stores the body, then the original sends it. *)
Definition res_json (cache : gmap string entry) (r : res) (now : Z) (b : json)
  : gmap string entry * response :=
  match json_patch r with
  | Some key =>
      (<[key := {| expires := now + ttlMs; value := b |}]> cache,
       {| status := statusCode r; body := b |})
  | None => (cache, {| status := statusCode r; body := b |})
  end.

(** The middleware returned by [createCache]: either it answers from
    the cache ([inl]) or it calls [next()] with the response object it
    leaves behind ([inr]). *)
Definition cache_middleware (cache : gmap string entry) (req : request) (now : Z)
  : gmap string entry * (response + res) :=
  if bool_decide (method req ≠ "GET") then (cache, inr fresh_res)
  else
    let key := originalUrl req in
    let patched := {| statusCode := 200; json_patch := Some key |} in
    match cache !! key with
    | Some e =>
        if bool_decide (now < expires e) then
          (cache, inl {| status := 200; body := value e |})
        else (delete key cache, inr patched)
    | None => (cache, inr patched)
    end.

Definition num_truthy (x : option Z) : option Z :=
  match x with
  | Some n => if bool_decide (n = 0) then None else Some n
  | None => None
  end.

Definition str_truthy (x : option string) : option string :=
  match x with
  | Some s => if bool_decide (s = "") then None else Some s
  | None => None
  end.

(** The statuses [res.status] takes: the integers from 100 to 999.  For
    another one Express throws a RangeError from [res.status], and
    [res.json] is not reached. *)
Definition sendable_status (code : Z) : Prop := 100 <= code <= 999.

(** [errorHandler(err, req, res, next)], sent at instant [now], for an
    error whose status [res.status] takes. *)
Definition errorHandler (cache : gmap string entry) (err : js_error) (r : res)
    (now : Z) : gmap string entry * response :=
  let status :=
    default (default 500 (num_truthy (err_status err)))
            (num_truthy (err_statusCode err)) in
  let error :=
    if bool_decide (err_message err = "") then "Internal Server Error"
    else err_message err in
  let stack :=
    match str_truthy (err_stack err) with
    | Some s => if production then [] else [("stack", JStr s)]
    | None => []
    end in
  let details :=
    match err_details err with
    | Some d => if truthy d then [("details", d)] else []
    | None => []
    end in
  let response := JObj ([("error", JStr error)] ++ stack ++ details) in
  res_json cache {| statusCode := status; json_patch := json_patch r |} now response.

(** The handler of [router.get("/")]: [res.json(mapped)], or
    [next(err)] into [errorHandler]. *)
Definition poznan_route (cache : gmap string entry) (r : res) (c : computed)
    (now : Z) : gmap string entry * response :=
  match c with
  | Computed mapped => res_json cache r now mapped
  | Failed err => errorHandler cache err r now
  end.

(** What one request to the route does: the cache afterwards, the
    response, and whether the upstream step ran. *)
Record served := {
  cache_after : gmap string entry;
  sent : response;
  compute_invoked : bool
}.

(** [router.use("/", createCache(ttl)); router.get("/", handler)] on
    [GET url]: the request enters the middleware at [now]; if the
    middleware calls [next()], the handler runs and sends at [later];
    [upstream] is the outcome of the upstream step if it runs. *)
Definition serve (cache : gmap string entry) (url : string) (now later : Z)
    (upstream : computed) : served :=
  match cache_middleware cache {| method := "GET"; originalUrl := url |} now with
  | (cache1, inl answer) =>
      {| cache_after := cache1; sent := answer; compute_invoked := false |}
  | (cache1, inr r) =>
      let '(cache2, answer) := poznan_route cache1 r upstream later in
      {| cache_after := cache2; sent := answer; compute_invoked := true |}
  end.

End WithTtl.

(** [CACHE_TTL_MS] of routes/v1/poznan.js: 5 minutes. *)
Definition CACHE_TTL_MS : Z := 5 * 60 * 1000.

End Cache.

(** ** A reference model of jsonwebtoken

    Signatures are symbolic: a token is the dot-separated hexadecimal
    rendering of its four claims followed by the rendering of the key it
    was signed with, so that [verify] accepts exactly the tokens [sign]
    produced under the same key.  [verify] follows the package: a missing
    secret is an error, and a token is expired once
    [Math.floor(Date.now() / 1000) >= exp]. *)

Module JwtModel.

Definition hex_digit (n : N) : ascii :=
  match n with
  | 0 => "0" | 1 => "1" | 2 => "2" | 3 => "3" | 4 => "4" | 5 => "5"
  | 6 => "6" | 7 => "7" | 8 => "8" | 9 => "9" | 10 => "a" | 11 => "b"
  | 12 => "c" | 13 => "d" | 14 => "e" | _ => "f"
  end%N%char.

Definition hex_value (c : ascii) : option N :=
  (if Ascii.eqb c "0" then Some 0 else if Ascii.eqb c "1" then Some 1
   else if Ascii.eqb c "2" then Some 2 else if Ascii.eqb c "3" then Some 3
   else if Ascii.eqb c "4" then Some 4 else if Ascii.eqb c "5" then Some 5
   else if Ascii.eqb c "6" then Some 6 else if Ascii.eqb c "7" then Some 7
   else if Ascii.eqb c "8" then Some 8 else if Ascii.eqb c "9" then Some 9
   else if Ascii.eqb c "a" then Some 10 else if Ascii.eqb c "b" then Some 11
   else if Ascii.eqb c "c" then Some 12 else if Ascii.eqb c "d" then Some 13
   else if Ascii.eqb c "e" then Some 14 else if Ascii.eqb c "f" then Some 15
   else None)%N%char.

Fixpoint hex_encode (s : string) : string :=
  match s with
  | EmptyString => EmptyString
  | String c rest =>
      let n := N_of_ascii c in
      String (hex_digit (n / 16)) (String (hex_digit (n mod 16)) (hex_encode rest))
  end%N.

Fixpoint hex_decode (s : string) : option string :=
  match s with
  | EmptyString => Some EmptyString
  | String hi (String lo rest) =>
      h ← hex_value hi; l ← hex_value lo; r ← hex_decode rest;
      Some (String (ascii_of_N (16 * h + l)) r)
  | String _ EmptyString => None
  end%N.

Definition render_Z (z : Z) : string := NilEmpty.string_of_int (Z.to_int z).
Definition parse_Z (s : string) : option Z := Z.of_int <$> NilEmpty.int_of_string s.

Definition sign (p : Jwt.payload) (secret : string) : string :=
  hex_encode (Jwt.sub p) +:+ "." +:+ hex_encode (Jwt.jti p) +:+ "."
  +:+ hex_encode (render_Z (Jwt.iat p)) +:+ "."
  +:+ hex_encode (render_Z (Jwt.exp p)) +:+ "." +:+ hex_encode secret.

Definition decode (token : string) : option (Jwt.payload * string) :=
  match Js.split "." token with
  | [a; b; c; d; e] =>
      sub ← hex_decode a; jti ← hex_decode b;
      iat ← hex_decode c ≫= parse_Z; exp ← hex_decode d ≫= parse_Z;
      key ← hex_decode e;
      Some ({| Jwt.sub := sub; Jwt.jti := jti; Jwt.iat := iat; Jwt.exp := exp |}, key)
  | _ => None
  end.

Definition verify (token : string) (secret : option string) (clock : Z)
  : option Jwt.payload :=
  match secret with
  | None | Some EmptyString => None
  | Some key =>
      match decode token with
      | Some (p, k) =>
          if bool_decide (k = key) then
            if bool_decide (Jwt.exp p <= clock / 1000) then None else Some p
          else None
      | None => None
      end
  end.

End JwtModel.

(** ** Vocabulary of the properties *)

Module Ledger.
Import Sql EventModel.

(** The event is a row of [events]. *)
Definition event_present (eventId : string) (s : store) : Prop :=
  eventId ∈ ev_id <$> events s.

(** The reaction rows of [userId] on [eventId]. *)
Definition rows_for (eventId userId : string) (s : store) : list event_like :=
  filter (fun r => el_event_id r = eventId ∧ el_user_id r = userId) (event_likes s).

(** The reaction rows on [eventId], of any user. *)
Definition rows_on (eventId : string) (s : store) : list event_like :=
  filter (fun r => el_event_id r = eventId) (event_likes s).

(** UNIQUE(event_id, user_id), as a count. *)
Definition one_reaction_per_pair (s : store) : Prop :=
  ∀ eventId userId, (length (rows_for eventId userId s) ≤ 1)%nat.

(** PRIMARY KEY(id) of [event_likes]. *)
Definition reaction_ids_unique (s : store) : Prop :=
  NoDup (el_id <$> event_likes s).

Definition pair_of (r : event_like) : string * string :=
  (el_event_id r, el_user_id r).

(** The row an insert of the toggle writes. *)
Definition new_reaction (uuid eventId userId : string) (reaction now : Z) : event_like :=
  {| el_id := uuid; el_event_id := eventId; el_user_id := userId;
     el_reaction := reaction; el_created_at := now |}.

(** A row after its polarity was flipped and its timestamp refreshed. *)
Definition flipped (reaction now : Z) (r : event_like) : event_like :=
  {| el_id := el_id r; el_event_id := el_event_id r; el_user_id := el_user_id r;
     el_reaction := reaction; el_created_at := now |}.

(** The polarities the routes pass: [POST /:id/like] and
    [POST /:id/dislike]. *)
Definition like : Z := 1.
Definition dislike : Z := -1.

(** The number of rows of polarity [v]. *)
Definition tally (v : Z) (rows : list event_like) : Z :=
  Z.of_nat (length (filter (fun r => el_reaction r = v) rows)).

(** The operations of the Reaction Ledger. *)
Inductive ledger_op :=
| Toggle (eventId userId : string) (reaction : Z) (uuid : string) (now : Z)
| Counts (eventId : string).

(** The store after one operation (a failed statement leaves it as it was). *)
Definition run_op (s : store) (op : ledger_op) : store :=
  match op with
  | Toggle e u r uuid now => final (likeOrDislikeEvent e u r uuid now s)
  | Counts e => final (getEventReactions e s)
  end.

Definition run_ops (ops : list ledger_op) (s : store) : store :=
  foldl run_op s ops.

End Ledger.

Module Sessions.
Import Sql Auth.

(** The store with every stored [expires_at] replaced by [f row]. *)
Definition with_expiry (f : user_token -> Z) (s : store) : store :=
  set_user_tokens
    ((fun r => {| ut_id := ut_id r; ut_user_id := ut_user_id r;
                  ut_token := ut_token r; ut_expires_at := f r;
                  ut_issued_at := ut_issued_at r |}) <$> user_tokens s) s.

End Sessions.

(** ** The operations that write the store *)

Module Backend.
Import Sql EventModel Auth Ledger.


Section WithJsonwebtoken.
Variable jwt_sign : Jwt.payload -> string -> string.
Variable JWT_SECRET : option string.




End WithJsonwebtoken.

End Backend.

Module Routes.
Import Cache.

(** What the handler of the route sends for an upstream outcome (it does
    not depend on the cache). *)
Definition handler_answer (production : bool) (upstream : computed) : response :=
  snd (poznan_route 0 production ∅ fresh_res upstream 0).

End Routes.

(** ** Concrete stores, sessions and requests *)

Module Examples.
Import Sql EventModel Auth Cache Ledger.

(** One event, not yet reacted to, and the same event liked by [u1]. *)
Definition stop_event : event_row :=
  {| ev_id := "e1"; ev_stopId := "10001"; ev_type := "info";
     ev_description := Some "Testing event creation"; ev_timestamp := 0;
     ev_created_by := Some "u1" |}.

Definition fresh_event : store := set_events [stop_event] Store.empty.

Definition liked_once : store :=
  set_event_likes [new_reaction "r1" "e1" "u1" like 10] fresh_event.

(** Likes, a flip, a count query and a toggle whose [uuidv4()] collides. *)
Definition busy_afternoon : list ledger_op :=
  [Toggle "e1" "u1" like "r1" 10; Toggle "e1" "u2" like "r2" 11;
   Toggle "e1" "u1" dislike "r3" 12; Counts "e1";
   Toggle "e1" "u3" like "r1" 13; Toggle "e1" "u2" like "r4" 14].

(** Two logins of user [u1], a second and a half and two seconds and a
    half after the epoch. *)
Definition secret : string := "s3cret".
Definition env : option string := Some secret.
Definition bearer (token : string) : option string := Some ("Bearer " +:+ token).

Definition token1 : string :=
  JwtModel.sign {| Jwt.sub := "u1"; Jwt.jti := "t1"; Jwt.iat := 1; Jwt.exp := 604801 |}
                secret.
Definition token2 : string :=
  JwtModel.sign {| Jwt.sub := "u1"; Jwt.jti := "t2"; Jwt.iat := 2; Jwt.exp := 604802 |}
                secret.

Definition login1 : Db string :=
  generateAndStoreToken JwtModel.sign env "u1" "Mozilla/5.0" "t1" 1500.
Definition login2 : Db string :=
  generateAndStoreToken JwtModel.sign env "u1" "curl/8.5" "t2" 2500.

Definition one_session : store := final (login1 Store.empty).
Definition two_sessions : store := final (login2 one_session).

(** The upstream feed refusing the connection, the body [errorHandler]
    makes of it outside production, and a mapped feed. *)
Definition upstream_down : js_error :=
  {| err_statusCode := None; err_status := None;
     err_message := "connect ECONNREFUSED 127.0.0.1:443";
     err_stack := Some "Error: connect ECONNREFUSED 127.0.0.1:443";
     err_details := None |}.

Definition error_body : json :=
  JObj [("error", JStr "connect ECONNREFUSED 127.0.0.1:443");
        ("stack", JStr "Error: connect ECONNREFUSED 127.0.0.1:443")].

Definition stops : json :=
  JArr [JObj [("id", JStr "10001"); ("stop_name", JStr "Rondo Kaponiera")]].

End Examples.

(** * The rest of the models and the routes *)

(** ** models/eventModel.js: creation and queries *)

Module EventQueries.
Import Sql EventModel.

(** [INSERT INTO events (id, stopId, type, description, timestamp, created_by)]
    with the values bound to it; [None] is [undefined] or [null], which
    the driver binds as NULL.  The statement is refused by NOT NULL on
    [stopId] and on [type], which SQLite checks first, and by the PRIMARY
    KEY on [id].  The schema declares foreign keys, but the connection
    opened in db.js never turns their enforcement on, so [created_by] is
    not checked against [users]. *)
Definition insert_event (id : string) (stopId type description : option string)
    (timestamp : Z) (created_by : option string) : Db unit :=
  fun s =>
    match stopId, type with
    | None, _ => (inr (SqliteConstraint "events.stopId"), s, [Insert Events])
    | Some _, None => (inr (SqliteConstraint "events.type"), s, [Insert Events])
    | Some stopId, Some type =>
        if bool_decide (id ∈ ev_id <$> events s) then
          (inr (SqliteConstraint "events.id"), s, [Insert Events])
        else
          (inl tt,
           set_events
             (events s ++
              [{| ev_id := id; ev_stopId := stopId; ev_type := type;
                  ev_description := description; ev_timestamp := timestamp;
                  ev_created_by := created_by |}]) s,
           [Insert Events])
    end.

(** [SELECT * FROM events WHERE id = ?] through [get]. *)
Definition select_event (eventId : string) : Db (option event_row) :=
  fun s =>
    (inl (snd <$> list_find (fun e => ev_id e = eventId) (events s)),
     s, [Select Events]).

(** The object passed as [eventData], by the properties a caller sets
    ([None]: the property is absent).  The parameter [createEvent]
    documents has [stopId], [type] and [description]; the body
    [POST /v1/events] passes has the keys of [eventCreateSchema].
    Objects with further properties are not covered. *)
Record eventData := {
  ed_stopId : option string;
  ed_otherName : option string;
  ed_otherId : option string;
  ed_type : option string;
  ed_description : option string
}.

(** The keys of a body [eventCreateSchema] (utils/validators.js) lets
    through: [otherName], [otherId] and [type] are required,
    [description] is optional, and a key the schema does not list, as
    [stopId], is refused.  The length limits are left out. *)
Definition eventCreateSchema_keys (data : eventData) : Prop :=
  is_Some (ed_otherName data) ∧ is_Some (ed_otherId data)
  ∧ is_Some (ed_type data) ∧ ed_stopId data = None.

(** The object [createEvent] returns:
    [{ id, ...eventData, timestamp, created_by, likes: 0, dislikes: 0 }]. *)
Record created_event := {
  ce_id : string;
  ce_eventData : eventData;
  ce_timestamp : Z;
  ce_created_by : option string;
  ce_likes : Z;
  ce_dislikes : Z
}.

(** The object [getEventById] returns ([created_by] is absent from it). *)
Record event_view := {
  view_id : string;
  view_stopId : string;
  view_type : string;
  view_description : option string;
  view_timestamp : Z;
  view_created_by : option string;
  view_likes : Z;
  view_dislikes : Z
}.

(** [createEvent(eventData, createdBy)]; [uuid] is [uuidv4()], [now] the
    instant of [new Date()]. *)
Definition createEvent (data : eventData) (createdBy : option string)
    (uuid : string) (now : Z) : Db created_event :=
  let eventId := uuid in
  let timestamp := now in
  _ ← insert_event eventId (ed_stopId data) (ed_type data) (ed_description data)
                   timestamp createdBy;
  mret {| ce_id := eventId; ce_eventData := data; ce_timestamp := timestamp;
          ce_created_by := createdBy; ce_likes := 0; ce_dislikes := 0 |}.

(** [getEventById(eventId)]. *)
Definition getEventById (eventId : string) : Db (option event_view) :=
  event ← select_event eventId;
  match event with
  | None => mret None
  | Some event =>
      reaction ← getEventReactions eventId;
      mret (Some {| view_id := ev_id event; view_stopId := ev_stopId event;
                    view_type := ev_type event;
                    view_description := ev_description event;
                    view_timestamp := ev_timestamp event;
                    view_created_by := None;
                    view_likes := likes reaction;
                    view_dislikes := dislikes reaction |})
  end.

(** The aggregate query of [getEventsReactions]:
    [SELECT event_id, SUM(...), SUM(...) FROM event_likes
     WHERE event_id IN (...) GROUP BY event_id], one row per event that
    has reaction rows. *)
Definition select_reaction_sums_in (eventIds : list string)
  : Db (list (string * sums_row)) :=
  fun s =>
    let rows := filter (fun r => el_event_id r ∈ eventIds) (event_likes s) in
    let groups := remove_dups (el_event_id <$> rows) in
    (inl ((fun e =>
             let group := filter (fun r => el_event_id r = e) rows in
             (e, {| likes_col := sum_case 1 group;
                    dislikes_col := sum_case (-1) group |})) <$> groups),
     s, [Select EventLikes]).

(** The object [getEventsReactions] builds, starting from [{}]: its own
    properties and the object it was last given as prototype.  On such
    an object an assignment [result[k] = v] creates or replaces the own
    property [k], except for the key ["__proto__"], the accessor of
    [Object.prototype]: there it replaces the prototype and no own
    property appears. *)
Record reactions_object := {
  own : gmap string reactions;
  prototype : option reactions
}.

Definition empty_object : reactions_object := {| own := ∅; prototype := None |}.

Definition assign (k : string) (v : reactions) (o : reactions_object)
  : reactions_object :=
  if bool_decide (k = "__proto__") then {| own := own o; prototype := Some v |}
  else {| own := <[k := v]> (own o); prototype := prototype o |}.

(** What the assignments to [k] left in the object: the own property, or
    for ["__proto__"] the prototype. *)
Definition assigned (k : string) (o : reactions_object) : option reactions :=
  if bool_decide (k = "__proto__") then prototype o else own o !! k.

(** [getEventsReactions(eventIds)]. *)
Definition getEventsReactions (eventIds : list string) : Db reactions_object :=
  match eventIds with
  | [] => mret empty_object
  | _ =>
      rows ← select_reaction_sums_in eventIds;
      let result :=
        foldl (fun acc id => assign id {| likes := 0; dislikes := 0 |} acc)
              empty_object eventIds in
      mret (foldl (fun acc row =>
                     assign (fst row)
                            {| likes := or_zero (likes_col (snd row));
                               dislikes := or_zero (dislikes_col (snd row)) |} acc)
                  result rows)
  end.

End EventQueries.

(** ** routes/v1/events.js: like and dislike *)

Module EventRoutes.
Import Sql EventModel Auth.

Inductive reaction_response :=
| Unauthorized (f : auth_failure)
| EventNotFound
| ReactionOk (message : string) (likes dislikes : Z).

Section WithJsonwebtoken.
Variable jwt_verify : string -> option string -> Z -> option Jwt.payload.
Variable JWT_SECRET : option string.

(** The handler shared by [POST /:id/like] ([reaction = 1]) and
    [POST /:id/dislike] ([reaction = -1]), behind [authenticateJWT];
    [clock] is the instant of the authentication, [uuid] and [now] are
    the inputs of [likeOrDislikeEvent]. *)
Definition react (reaction : Z) (authorization : option string) (clock : Z)
    (eventId uuid : string) (now : Z) : Db reaction_response :=
  a ← authenticateJWT jwt_verify JWT_SECRET authorization clock;
  match a with
  | Reject f => mret (Unauthorized f)
  | Next userId =>
      result ← likeOrDislikeEvent eventId userId reaction uuid now;
      if negb (eventExists result) then mret EventNotFound
      else
        reactions ← getEventReactions eventId;
        mret (ReactionOk
                (if updated result then "Reaction updated" else "Reaction registered")
                (likes reactions) (dislikes reactions))
  end.

Definition like_route := react 1.
Definition dislike_route := react (-1).

End WithJsonwebtoken.

End EventRoutes.

(** ** Vocabulary for credentials *)

Module Credentials.

(** The string holds no space character. *)
Definition no_space (s : string) : Prop :=
  " "%char ∉ (list_ascii_of_string s).

(** The Authorization header a client sends for a token. *)
Definition bearer_header (token : string) : option string :=
  Some ("Bearer " +:+ token).

End Credentials.

(** ** models/userModel.js and routes/v1/auth.js

    The [users] table is a list of rows in rowid order, passed explicitly:
    the functions of the user model touch no other table.  [bcryptjs] is
    a dependency: [bcrypt.hash(password, 10)] draws a salt, an input
    here, and [bcrypt.compare] is a parameter. *)

Module UserModel.

(** [users]: id TEXT PRIMARY KEY, username TEXT UNIQUE NOT NULL,
    email TEXT UNIQUE NOT NULL, password_hash, created_at. *)
Record user_row := {
  usr_id : string;
  usr_username : string;
  usr_email : string;
  usr_password_hash : string;
  usr_created_at : Z
}.

(** [INSERT INTO users (id, username, email, password_hash, created_at)]:
    refused by the PRIMARY KEY and by either UNIQUE constraint (when
    several are violated, the one named in the error is the first of
    id, username, email here). *)
Definition insert_user (row : user_row) (users : list user_row)
  : (unit + exn) * list user_row :=
  if bool_decide (usr_id row ∈ usr_id <$> users) then
    (inr (SqliteConstraint "users.id"), users)
  else if bool_decide (usr_username row ∈ usr_username <$> users) then
    (inr (SqliteConstraint "users.username"), users)
  else if bool_decide (usr_email row ∈ usr_email <$> users) then
    (inr (SqliteConstraint "users.email"), users)
  else (inl tt, users ++ [row]).

(** What [createUser] returns and what the register route answers with. *)
Record created_user := { cu_id : string; cu_username : string; cu_email : string }.

(** The row [findUserById] selects: id, username, email, created_at. *)
Record profile := {
  pr_id : string;
  pr_username : string;
  pr_email : string;
  pr_created_at : Z
}.

(** [findUserByUsernameOrEmail(usernameOrEmail)]:
    [SELECT * FROM users WHERE username = ? OR email = ?] through [get].
    When one row matches by username and another by email, the row [get]
    returns is the first the store yields; here it is the first in rowid
    order.  The properties below either do not depend on that choice or
    show that a single row matches. *)
Definition findUserByUsernameOrEmail (usernameOrEmail : string)
    (users : list user_row) : option user_row :=
  snd <$> list_find (fun r => usr_username r = usernameOrEmail
                              ∨ usr_email r = usernameOrEmail) users.

(** [findUserById(userId)]. *)
Definition findUserById (userId : string) (users : list user_row) : option profile :=
  (fun r => {| pr_id := usr_id r; pr_username := usr_username r;
               pr_email := usr_email r; pr_created_at := usr_created_at r |})
    <$> (snd <$> list_find (fun r => usr_id r = userId) users).

Section WithBcrypt.
Variable bcrypt_hash : string -> string -> string.
Variable bcrypt_compare : string -> string -> bool.

(** [createUser(username, email, password)]; [uuid] is [uuidv4()], [salt]
    the salt [bcrypt.hash] draws, [now] the instant of [datetime('now')]. *)
Definition createUser (username email password : string) (uuid salt : string)
    (now : Z) (users : list user_row) : (created_user + exn) * list user_row :=
  let userId := uuid in
  let passwordHash := bcrypt_hash password salt in
  match insert_user {| usr_id := userId; usr_username := username; usr_email := email;
                       usr_password_hash := passwordHash; usr_created_at := now |}
                    users with
  | (inl _, users') =>
      (inl {| cu_id := userId; cu_username := username; cu_email := email |}, users')
  | (inr e, users') => (inr e, users')
  end.

(** [verifyPassword(plainPassword, passwordHash)]. *)
Definition verifyPassword (plainPassword passwordHash : string) : bool :=
  bcrypt_compare plainPassword passwordHash.

End WithBcrypt.

End UserModel.

Module AuthRoutes.
Import Sql Auth UserModel.

(** The bodies the Joi schemas let through; a body they refuse is
    answered 400 before the handlers below run. *)
Record register_body := { rb_username : string; rb_email : string; rb_password : string }.
Record login_body := { lb_usernameOrEmail : string; lb_password : string }.

Inductive register_response :=
| RegisterConflict
| Registered (user : created_user).

Inductive login_response :=
| InvalidCredentials
| LoggedIn (token : string) (user : created_user).

Inductive me_response :=
| MeUnauthorized (f : auth_failure)
| MeNotFound
| MeProfile (p : profile).

Section WithLibraries.
Variable bcrypt_hash : string -> string -> string.
Variable bcrypt_compare : string -> string -> bool.
Variable jwt_sign : Jwt.payload -> string -> string.
Variable jwt_verify : string -> option string -> Z -> option Jwt.payload.
Variable JWT_SECRET : option string.

(** [POST /v1/auth/register] on a validated body: 409 when the username
    or the email is in use, else 201 with the created user. *)
Definition register (value : register_body) (uuid salt : string) (now : Z)
    (users : list user_row) : (register_response + exn) * list user_row :=
  let existing :=
    match findUserByUsernameOrEmail (rb_username value) users with
    | Some u => Some u
    | None => findUserByUsernameOrEmail (rb_email value) users
    end in
  match existing with
  | Some _ => (inl RegisterConflict, users)
  | None =>
      match createUser bcrypt_hash (rb_username value) (rb_email value)
                       (rb_password value) uuid salt now users with
      | (inl user, users') => (inl (Registered user), users')
      | (inr e, users') => (inr e, users')
      end
  end.

(** [POST /v1/auth/login] on a validated body; [deviceInfo] is the
    User-Agent header or [""]. *)
Definition login (users : list user_row) (value : login_body) (deviceInfo : string)
    (uuid : string) (now : Z) : Db login_response :=
  match findUserByUsernameOrEmail (lb_usernameOrEmail value) users with
  | None => mret InvalidCredentials
  | Some user =>
      if negb (verifyPassword bcrypt_compare (lb_password value) (usr_password_hash user))
      then mret InvalidCredentials
      else
        token ← generateAndStoreToken jwt_sign JWT_SECRET (usr_id user) deviceInfo uuid now;
        mret (LoggedIn token {| cu_id := usr_id user; cu_username := usr_username user;
                                cu_email := usr_email user |})
  end.

(** [GET /v1/auth/me], behind [authenticateJWT]. *)
Definition me (users : list user_row) (authorization : option string) (now : Z)
  : Db me_response :=
  a ← authenticateJWT jwt_verify JWT_SECRET authorization now;
  match a with
  | Reject f => mret (MeUnauthorized f)
  | Next id =>
      match findUserById id users with
      | None => mret MeNotFound
      | Some p => mret (MeProfile p)
      end
  end.

End WithLibraries.

(** The constraints of the [users] table. *)
Definition users_ok (users : list user_row) : Prop :=
  NoDup (usr_id <$> users)
  ∧ NoDup (usr_username <$> users)
  ∧ NoDup (usr_email <$> users).

End AuthRoutes.

Module Accounts.
Import UserModel AuthRoutes.

(** Some row carries [x] as its username or as its email. *)
Definition in_use (x : string) (users : list user_row) : Prop :=
  ∃ r, r ∈ users ∧ (usr_username r = x ∨ usr_email r = x).

(** The rows [findUserByUsernameOrEmail] selects from. *)
Definition matching (x : string) (users : list user_row) : list user_row :=
  filter (fun r => usr_username r = x ∨ usr_email r = x) users.

(** The row [createUser] inserts. *)
Definition new_user (bcrypt_hash : string -> string -> string)
    (value : register_body) (uuid salt : string) (now : Z) : user_row :=
  {| usr_id := uuid; usr_username := rb_username value; usr_email := rb_email value;
     usr_password_hash := bcrypt_hash (rb_password value) salt;
     usr_created_at := now |}.

Definition public (r : user_row) : created_user :=
  {| cu_id := usr_id r; cu_username := usr_username r; cu_email := usr_email r |}.

End Accounts.

(** ** The runs of the toggle *)

Module ToggleCases.
Import Sql EventModel Ledger.

(** The five runs of the toggle, exhaustively. *)
Inductive toggle_outcome (eventId userId : string) (reaction : Z) (uuid : string)
    (now : Z) (s : store) : (LikeDislikeResult + exn) * store * list access -> Prop :=
| toggle_absent :
    ¬ event_present eventId s ->
    toggle_outcome eventId userId reaction uuid now s
      (inl {| eventExists := false; updated := false |}, s, [Select Events])
| toggle_collides :
    event_present eventId s ->
    rows_for eventId userId s = [] ->
    uuid ∈ el_id <$> event_likes s ->
    toggle_outcome eventId userId reaction uuid now s
      (inr (SqliteConstraint "event_likes.id"), s,
       [Select Events; Select EventLikes; Insert EventLikes])
| toggle_inserts :
    event_present eventId s ->
    rows_for eventId userId s = [] ->
    uuid ∉ el_id <$> event_likes s ->
    toggle_outcome eventId userId reaction uuid now s
      (inl {| eventExists := true; updated := false |},
       set_event_likes
         (event_likes s ++ [new_reaction uuid eventId userId reaction now]) s,
       [Select Events; Select EventLikes; Insert EventLikes])
| toggle_flips i ex :
    event_present eventId s ->
    find_reaction eventId userId (event_likes s) = Some (i, ex) ->
    el_reaction ex ≠ reaction ->
    toggle_outcome eventId userId reaction uuid now s
      (inl {| eventExists := true; updated := true |},
       set_event_likes (set_reaction reaction now (el_id ex) <$> event_likes s) s,
       [Select Events; Select EventLikes; Update EventLikes])
| toggle_keeps i ex :
    event_present eventId s ->
    find_reaction eventId userId (event_likes s) = Some (i, ex) ->
    el_reaction ex = reaction ->
    toggle_outcome eventId userId reaction uuid now s
      (inl {| eventExists := true; updated := false |}, s,
       [Select Events; Select EventLikes]).

End ToggleCases.

(** ** A reference model of bcryptjs

    Symbolic, as the model of jsonwebtoken: a hash is the version and
    cost prefix, the salt, and the hexadecimal rendering of the password;
    [compare] reads the rendering back.  Salts hold no ["$"]. *)

Module BcryptModel.

Definition hash (password salt : string) : string :=
  "$2a$10$" +:+ salt +:+ "$" +:+ JwtModel.hex_encode password.

Definition compare (password hashed : string) : bool :=
  bool_decide (Js.split "$" hashed !! 4%nat = Some (JwtModel.hex_encode password)).

End BcryptModel.

(** ** Concrete accounts *)

Module Scenario.
Import UserModel AuthRoutes Accounts.

Definition alice : register_body :=
  {| rb_username := "alice"; rb_email := "alice@example.com";
     rb_password := "correct horse" |}.

Definition bob_row : user_row :=
  {| usr_id := "u0"; usr_username := "bob"; usr_email := "bob@example.com";
     usr_password_hash := BcryptModel.hash "battery staple" "c2FsdDA";
     usr_created_at := 1000 |}.

Definition alice_row : user_row := new_user BcryptModel.hash alice "u1" "c2FsdDE" 2000.

Definition alice_registers : (register_response + exn) * list user_row :=
  register BcryptModel.hash alice "u1" "c2FsdDE" 2000 [bob_row].



(** The upstream feed answering 502, as axios throws it. *)
Definition bad_gateway : Cache.js_error :=
  {| Cache.err_statusCode := None; Cache.err_status := Some 502;
     Cache.err_message := "Request failed with status code 502";
     Cache.err_stack := Some "AxiosError: Request failed with status code 502";
     Cache.err_details := None |}.

End Scenario.

(** * Properties of the reaction ledger *)

Module LedgerFacts.
Import Sql EventModel Ledger.

Lemma select_event_absent eventId s :
  ¬ event_present eventId s ->
  select_event_id eventId s = (inl None, s, [Select Events]).
Proof.
  intros Habs. unfold select_event_id.
  destruct (list_find _ (events s)) as [[i row]|] eqn:Hfind; [|done].
  apply list_find_Some in Hfind as (Hi & Hid & _).
  exfalso. apply Habs. unfold event_present.
  apply list_elem_of_fmap. exists row. split; [done|].
  by eapply list_elem_of_lookup_2.
Qed.

Lemma select_event_present eventId s :
  event_present eventId s ->
  select_event_id eventId s = (inl (Some eventId), s, [Select Events]).
Proof.
  intros Hin. unfold select_event_id.
  apply list_elem_of_fmap in Hin as (row & -> & Hrow).
  destruct (list_find_elem_of (fun e => ev_id e = ev_id row) _ row Hrow eq_refl)
    as [[i row'] Hfind].
  rewrite Hfind. simpl.
  apply list_find_Some in Hfind as (_ & -> & _). done.
Qed.

Lemma find_reaction_none eventId userId s :
  rows_for eventId userId s = [] ->
  find_reaction eventId userId (event_likes s) = None.
Proof.
  unfold rows_for, find_reaction. intros Hnil.
  apply list_find_None, Forall_forall. intros r Hr HP.
  assert (r ∈ filter (fun r => el_event_id r = eventId ∧ el_user_id r = userId)
                     (event_likes s)) as Hin
    by (apply list_elem_of_filter; done).
  rewrite Hnil in Hin. by apply elem_of_nil in Hin.
Qed.

Lemma rows_for_nil_Exists eventId userId s :
  rows_for eventId userId s = [] ->
  ¬ Exists (fun r => el_event_id r = eventId ∧ el_user_id r = userId) (event_likes s).
Proof.
  unfold rows_for. intros Hnil Hex.
  apply Exists_exists in Hex as (r & Hr & HP).
  assert (r ∈ filter (fun r => el_event_id r = eventId ∧ el_user_id r = userId)
                     (event_likes s)) as Hin
    by (apply list_elem_of_filter; done).
  rewrite Hnil in Hin. by apply elem_of_nil in Hin.
Qed.

(** Two matching rows at different positions make the count exceed one. *)
Lemma filter_two {A} (P : A -> Prop) `{!∀ x, Decision (P x)} (l : list A) i j x y :
  (i < j)%nat -> l !! i = Some x -> l !! j = Some y -> P x -> P y ->
  (2 ≤ length (filter P l))%nat.
Proof.
  revert i j. induction l as [|a l IH]; intros i j Hij Hi Hj Hx Hy; [done|].
  destruct j as [|j]; [lia|]. simpl in Hj.
  destruct i as [|i]; simpl in Hi.
  - simplify_eq. rewrite filter_cons_True by done. simpl.
    assert (y ∈ filter P l) as Hin
      by (apply list_elem_of_filter; split; [done|by eapply list_elem_of_lookup_2]).
    destruct (filter P l); [by apply elem_of_nil in Hin|simpl; lia].
  - specialize (IH i j ltac:(lia) Hi Hj Hx Hy).
    rewrite filter_cons. destruct (decide (P a)); simpl; lia.
Qed.

Lemma find_reaction_at s i ex :
  one_reaction_per_pair s ->
  event_likes s !! i = Some ex ->
  find_reaction (el_event_id ex) (el_user_id ex) (event_likes s) = Some (i, ex).
Proof.
  intros Huniq Hi. unfold find_reaction.
  apply list_find_Some. split; [done|]. split; [done|].
  intros j y Hj Hlt HP.
  specialize (Huniq (el_event_id ex) (el_user_id ex)). unfold rows_for in Huniq.
  assert (el_event_id ex = el_event_id ex ∧ el_user_id ex = el_user_id ex) as Hex by done.
  pose proof (filter_two
                (fun r => el_event_id r = el_event_id ex ∧ el_user_id r = el_user_id ex)
                (event_likes s) j i y ex Hlt Hj Hi HP Hex).
  lia.
Qed.

(** Under the primary key, [UPDATE ... WHERE id = ?] rewrites one row, in
    place. *)
Lemma update_in_place reaction now (l : list event_like) i ex :
  NoDup (el_id <$> l) ->
  l !! i = Some ex ->
  set_reaction reaction now (el_id ex) <$> l = <[i := flipped reaction now ex]> l.
Proof.
  intros Hnd Hi. apply list_eq. intros j.
  rewrite list_lookup_fmap.
  destruct (decide (i = j)) as [<-|Hne].
  - rewrite list_lookup_insert_eq by (by eapply lookup_lt_Some).
    rewrite Hi. simpl. unfold set_reaction. by rewrite decide_True.
  - rewrite list_lookup_insert_ne by done.
    destruct (l !! j) as [y|] eqn:Hj; [|done]. simpl.
    unfold set_reaction. rewrite decide_False; [done|].
    intros Heq. apply Hne.
    eapply NoDup_lookup; [exact Hnd| |]; rewrite list_lookup_fmap.
    + by rewrite Hi.
    + rewrite Hj. simpl. by rewrite Heq.
Qed.

(** The four runs of the toggle. *)
Lemma toggle_absent_run eventId userId reaction uuid now s :
  ¬ event_present eventId s ->
  likeOrDislikeEvent eventId userId reaction uuid now s
  = (inl {| eventExists := false; updated := false |}, s, [Select Events]).
Proof.
  intros Habs. unfold likeOrDislikeEvent. db_simpl.
  by rewrite (select_event_absent _ _ Habs).
Qed.

Lemma toggle_insert_run eventId userId reaction uuid now s :
  event_present eventId s ->
  rows_for eventId userId s = [] ->
  uuid ∉ el_id <$> event_likes s ->
  likeOrDislikeEvent eventId userId reaction uuid now s
  = (inl {| eventExists := true; updated := false |},
     set_event_likes
       (event_likes s ++ [new_reaction uuid eventId userId reaction now]) s,
     [Select Events; Select EventLikes; Insert EventLikes]).
Proof.
  intros Hev Hnone Hfresh. unfold likeOrDislikeEvent. db_simpl.
  rewrite (select_event_present _ _ Hev).
  unfold select_reaction. rewrite (find_reaction_none _ _ _ Hnone). simpl.
  unfold insert_reaction. simpl.
  rewrite bool_decide_eq_false_2 by done.
  rewrite bool_decide_eq_false_2 by (by apply rows_for_nil_Exists).
  done.
Qed.

Lemma toggle_update_run eventId userId reaction uuid now s i ex :
  event_present eventId s ->
  find_reaction eventId userId (event_likes s) = Some (i, ex) ->
  el_reaction ex ≠ reaction ->
  likeOrDislikeEvent eventId userId reaction uuid now s
  = (inl {| eventExists := true; updated := true |},
     set_event_likes (set_reaction reaction now (el_id ex) <$> event_likes s) s,
     [Select Events; Select EventLikes; Update EventLikes]).
Proof.
  intros Hev Hfind Hne. unfold likeOrDislikeEvent. db_simpl.
  rewrite (select_event_present _ _ Hev).
  unfold select_reaction. rewrite Hfind. simpl.
  by rewrite bool_decide_eq_true_2 by done.
Qed.

Lemma toggle_same_run eventId userId reaction uuid now s i ex :
  event_present eventId s ->
  find_reaction eventId userId (event_likes s) = Some (i, ex) ->
  el_reaction ex = reaction ->
  likeOrDislikeEvent eventId userId reaction uuid now s
  = (inl {| eventExists := true; updated := false |}, s,
     [Select Events; Select EventLikes]).
Proof.
  intros Hev Hfind Heq. unfold likeOrDislikeEvent. db_simpl.
  rewrite (select_event_present _ _ Hev).
  unfold select_reaction. rewrite Hfind. simpl.
  by rewrite bool_decide_eq_false_2 by (intros Hc; by apply Hc).
Qed.

(** The row just appended is the one the next lookup finds. *)
Lemma find_reaction_appended eventId userId s row :
  rows_for eventId userId s = [] ->
  pair_of row = (eventId, userId) ->
  find_reaction eventId userId (event_likes s ++ [row])
  = Some (length (event_likes s), row).
Proof.
  intros Hnone Hkey. unfold find_reaction.
  rewrite list_find_app_r by (by apply find_reaction_none).
  injection Hkey as <- <-. simpl.
  rewrite decide_True by done. done.
Qed.

Lemma set_reaction_fresh reaction now id (l : list event_like) :
  id ∉ el_id <$> l -> set_reaction reaction now id <$> l = l.
Proof.
  induction l as [|a l IH]; [done|]. rewrite fmap_cons, not_elem_of_cons.
  intros [Hne Hl]. rewrite fmap_cons, (IH Hl). f_equal.
  unfold set_reaction. by rewrite decide_False.
Qed.

(** The aggregate query counts the rows of each polarity. *)
Lemma or_zero_sum_case v rows : or_zero (sum_case v rows) = tally v rows.
Proof.
  assert (∀ l : list event_like,
    foldr (fun r acc => (if bool_decide (el_reaction r = v) then 1 else 0) + acc) 0 l
    = tally v l) as Hsum.
  { induction l as [|a l IH]; [done|]. simpl. rewrite IH. unfold tally.
    rewrite filter_cons.
    case_bool_decide; [rewrite decide_True by done|rewrite decide_False by done];
      simpl length; lia. }
  destruct rows as [|a rows]; [done|].
  unfold sum_case. rewrite Hsum. unfold or_zero. by case_bool_decide.
Qed.

Lemma getEventReactions_run eventId s :
  getEventReactions eventId s
  = (inl {| likes := tally like (rows_on eventId s);
            dislikes := tally dislike (rows_on eventId s) |},
     s, [Select EventLikes]).
Proof.
  unfold getEventReactions. db_simpl. unfold select_reaction_sums. simpl.
  by rewrite !or_zero_sum_case.
Qed.

Lemma tally_snoc v rows r :
  tally v (rows ++ [r]) = tally v rows + (if bool_decide (el_reaction r = v) then 1 else 0).
Proof.
  unfold tally. rewrite filter_app, length_app, filter_cons, filter_nil.
  case_bool_decide; [rewrite decide_True by done|rewrite decide_False by done];
    simpl length; lia.
Qed.

End LedgerFacts.

Module ToggleSpec.
Import Sql EventModel Ledger LedgerFacts.

(** C1.  The reaction toggle follows the algorithm of the specification,
    on every store that satisfies the constraints of the schema:
    - the event does not exist: [{eventExists: false, updated: false}],
      one read of [events], nothing written;
    - no reaction row for (eventId, userId), [uuidv4()] fresh: the new row
      with the given polarity is appended, [{true, false}];
    - a row with a different polarity: that row alone is rewritten in
      place (new polarity, timestamp [now]), [{true, true}];
    - a row with the same polarity: no write, [{true, false}]. *)
Theorem likeOrDislikeEvent_algorithm (s : store) (eventId userId : string)
    (reaction : Z) (uuid : string) (now : Z) :
  one_reaction_per_pair s ->
  reaction_ids_unique s ->
  let run := likeOrDislikeEvent eventId userId reaction uuid now s in
  (¬ event_present eventId s ->
     run = (inl {| eventExists := false; updated := false |}, s, [Select Events]))
  ∧ (event_present eventId s ->
     rows_for eventId userId s = [] ->
     uuid ∉ el_id <$> event_likes s ->
     run = (inl {| eventExists := true; updated := false |},
            set_event_likes
              (event_likes s ++ [new_reaction uuid eventId userId reaction now]) s,
            [Select Events; Select EventLikes; Insert EventLikes]))
  ∧ (∀ i ex,
       event_present eventId s ->
       event_likes s !! i = Some ex ->
       pair_of ex = (eventId, userId) ->
       el_reaction ex ≠ reaction ->
       run = (inl {| eventExists := true; updated := true |},
              set_event_likes (<[i := flipped reaction now ex]> (event_likes s)) s,
              [Select Events; Select EventLikes; Update EventLikes]))
  ∧ (∀ i ex,
       event_present eventId s ->
       event_likes s !! i = Some ex ->
       pair_of ex = (eventId, userId) ->
       el_reaction ex = reaction ->
       run = (inl {| eventExists := true; updated := false |}, s,
              [Select Events; Select EventLikes])).
Proof.
  intros Hpair Hids run. subst run. repeat split.
  - apply toggle_absent_run.
  - apply toggle_insert_run.
  - intros i ex Hev Hi Hkey Hne. injection Hkey as <- <-.
    rewrite (toggle_update_run _ _ _ _ _ _ i ex Hev (find_reaction_at _ _ _ Hpair Hi) Hne).
    by rewrite (update_in_place _ _ _ _ _ Hids Hi).
  - intros i ex Hev Hi Hkey Heq. injection Hkey as <- <-.
    exact (toggle_same_run _ _ _ _ _ _ i ex Hev (find_reaction_at _ _ _ Hpair Hi) Heq).
Qed.

End ToggleSpec.

Module LedgerInvariant.
Import Sql EventModel Ledger LedgerFacts.

(** What the toggle can do to the store: nothing, append one row for a
    pair that had none, or rewrite polarity and timestamp of the rows of
    one id. *)
Lemma toggle_final_cases eventId userId reaction uuid now s :
  let s' := final (likeOrDislikeEvent eventId userId reaction uuid now s) in
  s' = s
  ∨ (rows_for eventId userId s = []
     ∧ s' = set_event_likes
              (event_likes s ++ [new_reaction uuid eventId userId reaction now]) s)
  ∨ (∃ id, s' = set_event_likes (set_reaction reaction now id <$> event_likes s) s).
Proof.
  simpl. unfold likeOrDislikeEvent. db_simpl. unfold select_event_id.
  destruct (list_find _ (events s)) as [[k ev]|]; simpl; [|by left].
  unfold select_reaction.
  destruct (find_reaction eventId userId (event_likes s)) as [[i ex]|] eqn:Hfind; simpl.
  - case_bool_decide; [right; right; by eexists|by left].
  - unfold insert_reaction. simpl.
    destruct (bool_decide (uuid ∈ _)); [by left|].
    destruct (bool_decide (Exists _ _)) eqn:Hex; [by left|].
    apply bool_decide_eq_false in Hex.
    right; left. split; [|done].
    unfold rows_for.
    destruct (filter _ (event_likes s)) as [|r rest] eqn:Hf; [done|].
    exfalso. apply Hex. apply Exists_exists. exists r.
    assert (r ∈ filter (fun r => el_event_id r = eventId ∧ el_user_id r = userId)
                       (event_likes s)) as Hin by (rewrite Hf; left).
    by apply list_elem_of_filter in Hin as [? ?].
Qed.

Lemma filter_set_reaction (P : event_like -> Prop) `{!∀ x, Decision (P x)}
    reaction now id (l : list event_like) :
  (∀ r, P (set_reaction reaction now id r) ↔ P r) ->
  length (filter P (set_reaction reaction now id <$> l)) = length (filter P l).
Proof.
  intros HP. induction l as [|a l IH]; [done|].
  rewrite fmap_cons, !filter_cons.
  destruct (decide (P (set_reaction reaction now id a))) as [H1|H1];
    destruct (decide (P a)) as [H2|H2]; simpl; try lia.
  - by apply (proj1 (HP a)) in H1.
  - by apply (proj2 (HP a)) in H2.
Qed.

Lemma set_reaction_pair reaction now id r :
  pair_of (set_reaction reaction now id r) = pair_of r.
Proof. unfold set_reaction. by case_decide. Qed.

Lemma toggle_preserves eventId userId reaction uuid now s :
  one_reaction_per_pair s ->
  one_reaction_per_pair (final (likeOrDislikeEvent eventId userId reaction uuid now s)).
Proof.
  intros Hinv.
  destruct (toggle_final_cases eventId userId reaction uuid now s)
    as [-> | [[Hnone ->] | [id ->]]]; [done| |].
  - intros e u. unfold rows_for. simpl.
    rewrite filter_app, length_app.
    destruct (decide (e = eventId ∧ u = userId)) as [[-> ->]|Hne].
    + unfold rows_for in Hnone. rewrite Hnone. simpl.
      pose proof (length_filter
        (fun r => el_event_id r = eventId ∧ el_user_id r = userId)
        [new_reaction uuid eventId userId reaction now]). simpl in *. lia.
    + rewrite filter_cons_False by (simpl; intros [? ?]; by apply Hne).
      rewrite filter_nil. simpl. specialize (Hinv e u). unfold rows_for in Hinv. lia.
  - intros e u. unfold rows_for. simpl.
    rewrite filter_set_reaction; [apply Hinv|].
    intros r. pose proof (set_reaction_pair reaction now id r) as Hp.
    unfold pair_of in Hp. injection Hp as -> ->. done.
Qed.

Lemma run_op_preserves s op :
  one_reaction_per_pair s -> one_reaction_per_pair (run_op s op).
Proof.
  destruct op as [e u r uuid now|e]; simpl; [apply toggle_preserves|done].
Qed.

(** C2.  Along every sequence of operations of the Reaction Ledger
    (toggles with any events, users, polarities, identifiers and instants,
    and count queries), started from a store with at most one reaction row
    per (eventId, userId) pair, every store reached holds at most one row
    for every pair. *)
Theorem at_most_one_reaction_per_pair (ops : list ledger_op) (s : store) :
  one_reaction_per_pair s ->
  ∀ n : nat, one_reaction_per_pair (run_ops (take n ops) s).
Proof.
  intros Hinv n. revert s Hinv n.
  induction ops as [|op ops IH]; intros s Hinv n.
  - by rewrite take_nil.
  - destruct n as [|n]; [done|]. simpl.
    apply IH. by apply run_op_preserves.
Qed.

End LedgerInvariant.

Module ToggleSequences.
Import Sql EventModel Ledger LedgerFacts.

Lemma event_present_set_event_likes eventId l s :
  event_present eventId (set_event_likes l s) ↔ event_present eventId s.
Proof. done. Qed.

Lemma rows_on_appended eventId userId uuid reaction now s :
  rows_on eventId
    (set_event_likes
       (event_likes s ++ [new_reaction uuid eventId userId reaction now]) s)
  = rows_on eventId s ++ [new_reaction uuid eventId userId reaction now].
Proof.
  unfold rows_on. simpl. rewrite filter_app. f_equal.
  by rewrite filter_cons_True by done.
Qed.

(** C7.  On an existing event [e] on which user [u] has no reaction row
    (and with a fresh [uuidv4()] for the insert), [toggle(e,u,like)] twice
    in sequence returns [{eventExists: true, updated: false}] both times;
    the second call leaves the store as it was and sends no writing
    statement; the counts afterwards are one like more than before the
    first call and the same dislikes, hence exactly [{likes: 1,
    dislikes: 0}] when [e] had no reaction rows at all. *)
Theorem toggle_like_twice (s : store) (e u uuid1 uuid2 : string) (now1 now2 : Z) :
  event_present e s ->
  rows_for e u s = [] ->
  uuid1 ∉ el_id <$> event_likes s ->
  let first := likeOrDislikeEvent e u like uuid1 now1 s in
  let second := likeOrDislikeEvent e u like uuid2 now2 (final first) in
  result first = inl {| eventExists := true; updated := false |}
  ∧ result second = inl {| eventExists := true; updated := false |}
  ∧ final second = final first
  ∧ Forall (fun a => is_write a = false) (trace second)
  ∧ (∀ before,
       result (getEventReactions e s) = inl before ->
       result (getEventReactions e (final second))
       = inl {| likes := likes before + 1; dislikes := dislikes before |})
  ∧ (rows_on e s = [] ->
       result (getEventReactions e (final second))
       = inl {| likes := 1; dislikes := 0 |}).
Proof.
  intros Hev Hnone Hfresh first second.
  set (row := new_reaction uuid1 e u like now1).
  set (s1 := set_event_likes (event_likes s ++ [row]) s).
  assert (first = (inl {| eventExists := true; updated := false |}, s1,
                   [Select Events; Select EventLikes; Insert EventLikes])) as Hfirst
    by (by apply toggle_insert_run).
  assert (second = (inl {| eventExists := true; updated := false |}, s1,
                    [Select Events; Select EventLikes])) as Hsecond.
  { subst second. rewrite Hfirst. change (final (_, s1, _)) with s1.
    apply (toggle_same_run e u like uuid2 now2 s1 (length (event_likes s)) row);
      [done| |done].
    by apply find_reaction_appended. }
  rewrite Hsecond, Hfirst. cbn [final result trace fst snd].
  rewrite !getEventReactions_run. cbn [result fst].
  unfold s1, row. rewrite rows_on_appended, !tally_snoc. simpl.
  repeat split.
  - by repeat constructor.
  - intros before [= <-]. simpl. f_equal. f_equal; lia.
  - by intros ->.
Qed.

(** C8.  On an existing event [e] on which user [u] has no reaction row
    (and with a fresh [uuidv4()] for the insert), [toggle(e,u,like)] then
    [toggle(e,u,dislike)] returns [{true, false}] then [{true, true}]; the
    second call rewrites the row of the first instead of adding one, so the
    pair has a single row, a dislike; the counts afterwards are the likes
    of before and one dislike more, hence exactly [{likes: 0, dislikes: 1}]
    when [e] had no reaction rows at all. *)
Theorem toggle_like_then_dislike (s : store) (e u uuid1 uuid2 : string)
    (now1 now2 : Z) :
  event_present e s ->
  rows_for e u s = [] ->
  uuid1 ∉ el_id <$> event_likes s ->
  let first := likeOrDislikeEvent e u like uuid1 now1 s in
  let second := likeOrDislikeEvent e u dislike uuid2 now2 (final first) in
  result first = inl {| eventExists := true; updated := false |}
  ∧ result second = inl {| eventExists := true; updated := true |}
  ∧ event_likes (final second)
    = event_likes s ++ [new_reaction uuid1 e u dislike now2]
  ∧ rows_for e u (final second) = [new_reaction uuid1 e u dislike now2]
  ∧ (∀ before,
       result (getEventReactions e s) = inl before ->
       result (getEventReactions e (final second))
       = inl {| likes := likes before; dislikes := dislikes before + 1 |})
  ∧ (rows_on e s = [] ->
       result (getEventReactions e (final second))
       = inl {| likes := 0; dislikes := 1 |}).
Proof.
  intros Hev Hnone Hfresh first second.
  set (row := new_reaction uuid1 e u like now1).
  set (s1 := set_event_likes (event_likes s ++ [row]) s).
  set (s2 := set_event_likes
               (event_likes s ++ [new_reaction uuid1 e u dislike now2]) s).
  assert (first = (inl {| eventExists := true; updated := false |}, s1,
                   [Select Events; Select EventLikes; Insert EventLikes])) as Hfirst
    by (by apply toggle_insert_run).
  assert (second = (inl {| eventExists := true; updated := true |}, s2,
                    [Select Events; Select EventLikes; Update EventLikes])) as Hsecond.
  { subst second. rewrite Hfirst. change (final (_, s1, _)) with s1.
    rewrite (toggle_update_run e u dislike uuid2 now2 s1 (length (event_likes s)) row);
      [|done|by apply find_reaction_appended|done].
    do 2 f_equal. unfold s1, s2, set_event_likes. simpl. f_equal.
    rewrite fmap_app, (set_reaction_fresh _ _ _ _ Hfresh). f_equal.
    simpl. unfold set_reaction. simpl. by rewrite decide_True. }
  rewrite Hsecond, Hfirst. cbn [final result trace fst snd].
  rewrite !getEventReactions_run. cbn [result fst].
  unfold s2. rewrite rows_on_appended, !tally_snoc. simpl.
  repeat split.
  - unfold rows_for. simpl. rewrite filter_app.
    unfold rows_for in Hnone. rewrite Hnone. by rewrite filter_cons_True.
  - intros before [= <-]. simpl. f_equal. f_equal; lia.
  - by intros ->.
Qed.

End ToggleSequences.

(** * Facts about the header parsing *)

Module JsFacts.

Lemma split_not_nil c s : Js.split c s ≠ [].
Proof.
  induction s as [|a s IH]; [done|]. simpl.
  destruct (Ascii.eqb a c); [done|]. by destruct (Js.split c s).
Qed.

Lemma prefix_app p s : String.prefix p s = true -> ∃ rest, s = p +:+ rest.
Proof.
  revert s. induction p as [|a p IH]; intros s H; [by exists s|].
  destruct s as [|b s]; [done|]. simpl in H.
  destruct (ascii_dec a b) as [->|]; [|done].
  destruct (IH _ H) as [rest ->]. by exists rest.
Qed.

(** After [header.startsWith("Bearer ")], [header.split(" ")[1]] is
    defined. *)
Lemma bearer_token_None header :
  Js.bearer_token header = None -> Js.startsWith header "Bearer " = false.
Proof.
  unfold Js.bearer_token.
  destruct (Js.startsWith header "Bearer ") eqn:Hp; [|done].
  apply prefix_app in Hp as [rest ->]. simpl.
  destruct (Js.split " " rest) eqn:Hs; [by apply split_not_nil in Hs|].
  simpl. change ("" +:+ rest) with rest. rewrite Hs. discriminate.
Qed.

Lemma bearer_token_Some header token :
  Js.bearer_token header = Some token ->
  Js.startsWith header "Bearer " = true
  ∧ Js.split " " header !! 1%nat = Some token.
Proof.
  unfold Js.bearer_token. by destruct (Js.startsWith header "Bearer ").
Qed.

End JsFacts.

(** * Properties of the session authenticator and the token ledger *)

Module AuthFacts.
Import Sql Auth JsFacts.

Section WithJsonwebtoken.
Variable jwt_verify : string -> option string -> Z -> option Jwt.payload.
Variable JWT_SECRET : option string.

Lemma authenticate_missing authorization now s :
  Js.bearer_token (default "" authorization) = None ->
  authenticateJWT jwt_verify JWT_SECRET authorization now s
  = (inl (Reject MissingCredential), s, []).
Proof.
  intros H%bearer_token_None. unfold authenticateJWT. cbv zeta.
  rewrite H. reflexivity.
Qed.

Lemma authenticate_unverified authorization now s token :
  Js.bearer_token (default "" authorization) = Some token ->
  jwt_verify token JWT_SECRET now = None ->
  authenticateJWT jwt_verify JWT_SECRET authorization now s
  = (inl (Reject InvalidSignatureOrExpired), s, []).
Proof.
  intros [H1 H2]%bearer_token_Some H3. unfold authenticateJWT. cbv zeta.
  rewrite H1, H2, H3. reflexivity.
Qed.

Lemma authenticate_verified authorization now s token payload :
  Js.bearer_token (default "" authorization) = Some token ->
  jwt_verify token JWT_SECRET now = Some payload ->
  authenticateJWT jwt_verify JWT_SECRET authorization now s
  = (inl (match list_find (fun r => ut_id r = Jwt.jti payload ∧ ut_token r = token)
                          (user_tokens s) with
          | Some _ => Next (Jwt.sub payload)
          | None => Reject NotRecognized
          end),
     s, [Select UserTokens]).
Proof.
  intros [H1 H2]%bearer_token_Some H3. unfold authenticateJWT. cbv zeta.
  rewrite H1, H2, H3. db_simpl. unfold select_token. simpl.
  destruct (list_find _ (user_tokens s)) as [[i row]|]; reflexivity.
Qed.

(** The logout route revokes the token string of the presented header. *)
Lemma logout_run authorization now s token user :
  Js.bearer_token (default "" authorization) = Some token ->
  token ≠ "" ->
  result (authenticateJWT jwt_verify JWT_SECRET authorization now s) = inl (Next user) ->
  logout jwt_verify JWT_SECRET authorization now s
  = (inl LogoutSuccess, final (revokeToken token s),
     [Select UserTokens; Delete UserTokens]).
Proof.
  intros Hb Hne Hauth. unfold logout. db_simpl.
  destruct (jwt_verify token JWT_SECRET now) as [payload|] eqn:Hv.
  - rewrite (authenticate_verified _ _ _ _ _ Hb Hv) in Hauth |- *.
    cbn [result fst] in Hauth.
    destruct (list_find _ (user_tokens s)) as [[i row]|]; [|discriminate].
    rewrite Hb. destruct token as [|c token]; [done|]. reflexivity.
  - rewrite (authenticate_unverified _ _ _ _ Hb Hv) in Hauth. discriminate.
Qed.

End WithJsonwebtoken.

Lemma revokeToken_run token s :
  revokeToken token s
  = (inl tt, set_user_tokens (filter (fun r => ut_token r ≠ token) (user_tokens s)) s,
     [Delete UserTokens]).
Proof. done. Qed.

Lemma find_token_revoked id token (l : list user_token) :
  list_find (fun r => ut_id r = id ∧ ut_token r = token)
            (filter (fun r => ut_token r ≠ token) l) = None.
Proof.
  apply list_find_None, Forall_forall. intros r Hr [_ Htok].
  by apply list_elem_of_filter in Hr as [Hne _].
Qed.

(** Deleting the rows of another token does not change what a lookup
    finds. *)
Lemma find_token_other id token other (l : list user_token) :
  other ≠ token ->
  snd <$> list_find (fun r => ut_id r = id ∧ ut_token r = other)
                    (filter (fun r => ut_token r ≠ token) l)
  = snd <$> list_find (fun r => ut_id r = id ∧ ut_token r = other) l.
Proof.
  intros Hne. induction l as [|a l IH]; [done|].
  rewrite filter_cons. destruct (decide (ut_token a ≠ token)) as [Hk|Hk].
  - simpl. destruct (decide (ut_id a = id ∧ ut_token a = other)); [done|].
    destruct (list_find _ (filter _ l)) as [[i x]|];
      destruct (list_find _ l) as [[j y]|]; simpl in *; congruence.
  - simpl. rewrite decide_False.
    + rewrite IH. by destruct (list_find _ l) as [[j y]|].
    + intros [_ Htok]. apply Hk. congruence.
Qed.

Lemma filter_absent_id token (l : list user_token) :
  (∀ r, r ∈ l -> ut_token r ≠ token) ->
  filter (fun r => ut_token r ≠ token) l = l.
Proof.
  induction l as [|a l IH]; intros Hall; [done|].
  rewrite filter_cons_True by (apply Hall; left).
  f_equal. apply IH. intros r Hr. apply Hall. by right.
Qed.

Lemma set_user_tokens_same s : set_user_tokens (user_tokens s) s = s.
Proof. by destruct s. Qed.

End AuthFacts.

Module AuthSpec.
Import Sql Auth AuthFacts.

(** C9.  The Session Authenticator reaches the Token Ledger only after
    signature/expiry verification has succeeded: a run that sent any
    statement to the store had a bearer credential that verified, and
    when verification fails the attempt ends with
    InvalidSignatureOrExpired, the store untouched and no statement
    sent. *)
Theorem verification_precedes_ledger
    (jwt_verify : string -> option string -> Z -> option Jwt.payload)
    (JWT_SECRET : option string) (authorization : option string) (now : Z)
    (s : store) :
  let run := authenticateJWT jwt_verify JWT_SECRET authorization now s in
  (trace run ≠ [] ->
     ∃ token payload,
       Js.bearer_token (default "" authorization) = Some token
       ∧ jwt_verify token JWT_SECRET now = Some payload)
  ∧ (∀ token,
       Js.bearer_token (default "" authorization) = Some token ->
       jwt_verify token JWT_SECRET now = None ->
       run = (inl (Reject InvalidSignatureOrExpired), s, [])).
Proof.
  intros run. subst run. split.
  - destruct (Js.bearer_token (default "" authorization)) as [token|] eqn:Hb.
    + destruct (jwt_verify token JWT_SECRET now) as [payload|] eqn:Hv.
      * intros _. by exists token, payload.
      * rewrite (authenticate_unverified _ _ _ _ _ _ Hb Hv). by intros [].
    + rewrite (authenticate_missing _ _ _ _ _ Hb). by intros [].
  - intros token. apply authenticate_unverified.
Qed.

(** C5, as amended.  After [revokeToken(token)] no lookup of that token
    finds a record, whatever the id; every later authentication attempt
    with that credential fails: NotRecognized when the credential passes
    signature/expiry verification, InvalidSignatureOrExpired when it does
    not (verification comes first); revoking a token that has no row
    succeeds and leaves the ledger as it was. *)
Theorem revocation_is_immediate
    (jwt_verify : string -> option string -> Z -> option Jwt.payload)
    (JWT_SECRET : option string) (s : store) (token : string) :
  let s' := final (revokeToken token s) in
  result (revokeToken token s) = inl tt
  ∧ (∀ id, result (select_token id token s') = inl None)
  ∧ (∀ authorization now,
       Js.bearer_token (default "" authorization) = Some token ->
       authenticateJWT jwt_verify JWT_SECRET authorization now s'
       = match jwt_verify token JWT_SECRET now with
         | Some _ => (inl (Reject NotRecognized), s', [Select UserTokens])
         | None => (inl (Reject InvalidSignatureOrExpired), s', [])
         end)
  ∧ ((∀ r, r ∈ user_tokens s -> ut_token r ≠ token) ->
       revokeToken token s = (inl tt, s, [Delete UserTokens])).
Proof.
  intros s'. subst s'. rewrite revokeToken_run. cbn [final result fst snd].
  split; [done|]. split; [|split].
  - intros id. unfold select_token, result. simpl.
    by rewrite find_token_revoked.
  - intros authorization now Hb.
    destruct (jwt_verify token JWT_SECRET now) as [payload|] eqn:Hv.
    + rewrite (authenticate_verified _ _ _ _ _ _ _ Hb Hv). simpl.
      by rewrite find_token_revoked.
    + by apply (authenticate_unverified _ _ _ _ _ token).
  - intros Habs. by rewrite filter_absent_id, set_user_tokens_same.
Qed.

(** C10.  [revokeToken(token)] deletes exactly the rows of [user_tokens]
    whose token string is the presented one: every other row stays, as it
    was and in the same order, the other tables are untouched, and a
    credential with a different token string (another session of the same
    user included) authenticates after the revocation exactly as before
    it.  The logout route revokes the token string of the header it was
    authenticated with. *)
Theorem revocation_is_scoped
    (jwt_verify : string -> option string -> Z -> option Jwt.payload)
    (JWT_SECRET : option string) (s : store) (token : string) :
  let s' := final (revokeToken token s) in
  user_tokens s' = filter (fun r => ut_token r ≠ token) (user_tokens s)
  ∧ (∀ r, r ∈ user_tokens s' ↔ r ∈ user_tokens s ∧ ut_token r ≠ token)
  ∧ events s' = events s
  ∧ event_likes s' = event_likes s
  ∧ (∀ authorization now other,
       Js.bearer_token (default "" authorization) = Some other ->
       other ≠ token ->
       result (authenticateJWT jwt_verify JWT_SECRET authorization now s')
       = result (authenticateJWT jwt_verify JWT_SECRET authorization now s))
  ∧ (∀ authorization now user,
       Js.bearer_token (default "" authorization) = Some token ->
       token ≠ "" ->
       result (authenticateJWT jwt_verify JWT_SECRET authorization now s)
       = inl (Next user) ->
       logout jwt_verify JWT_SECRET authorization now s
       = (inl LogoutSuccess, s', [Select UserTokens; Delete UserTokens])).
Proof.
  intros s'. subst s'. rewrite revokeToken_run. cbn [final fst snd].
  split; [done|]. split; [|split; [done|split; [done|split]]].
  - intros r. simpl. rewrite list_elem_of_filter. tauto.
  - intros authorization now other Hb Hne.
    destruct (jwt_verify other JWT_SECRET now) as [payload|] eqn:Hv.
    + rewrite !(authenticate_verified _ _ _ _ _ _ _ Hb Hv). cbn [result fst].
      simpl user_tokens.
      pose proof (find_token_other (Jwt.jti payload) token other (user_tokens s) Hne)
        as Hfind.
      destruct (list_find _ (filter _ (user_tokens s))) as [[i x]|];
        destruct (list_find _ (user_tokens s)) as [[j y]|]; simpl in Hfind;
        congruence.
    + by rewrite !(authenticate_unverified _ _ _ _ _ _ Hb Hv).
  - intros authorization now user Hb Hne Hauth.
    exact (logout_run jwt_verify JWT_SECRET authorization now s token user Hb Hne Hauth).
Qed.

End AuthSpec.

(** * The reference model of jsonwebtoken meets the contract assumed of it *)

Module JwtModelFacts.
Import JwtModel.

Local Open Scope N_scope.

Lemma hex_byte c :
  let n := N_of_ascii c in
  hex_value (hex_digit (n / 16)) = Some (n / 16)
  ∧ hex_value (hex_digit (n mod 16)) = Some (n mod 16)
  ∧ ascii_of_N (16 * (n / 16) + n mod 16) = c
  ∧ Ascii.eqb (hex_digit (n / 16)) "." = false
  ∧ Ascii.eqb (hex_digit (n mod 16)) "." = false.
Proof.
  destruct c as [[] [] [] [] [] [] [] []]; vm_compute; repeat split.
Qed.

Local Close Scope N_scope.

Lemma hex_decode_encode s : hex_decode (hex_encode s) = Some s.
Proof.
  induction s as [|c s IH]; [done|].
  destruct (hex_byte c) as (Hhi & Hlo & Hc & _). simpl in *.
  rewrite Hhi, Hlo. simpl. rewrite IH. simpl. by rewrite Hc.
Qed.

Lemma split_hex_segment a rest :
  Js.split "." (hex_encode a +:+ "." +:+ rest) = hex_encode a :: Js.split "." rest.
Proof.
  induction a as [|c a IH]; [done|].
  destruct (hex_byte c) as (_ & _ & _ & Hhi & Hlo). simpl in *.
  rewrite Hhi, Hlo. by rewrite IH.
Qed.

Lemma split_hex_last a : Js.split "." (hex_encode a) = [hex_encode a].
Proof.
  induction a as [|c a IH]; [done|].
  destruct (hex_byte c) as (_ & _ & _ & Hhi & Hlo). simpl in *.
  rewrite Hhi, Hlo. by rewrite IH.
Qed.

Lemma parse_render_Z z : parse_Z (render_Z z) = Some z.
Proof.
  unfold parse_Z, render_Z. rewrite NilEmpty.isi. simpl.
  by rewrite DecimalZ.of_to.
Qed.

Lemma decode_sign p key : decode (sign p key) = Some (p, key).
Proof.
  unfold decode, sign.
  rewrite !split_hex_segment, split_hex_last.
  rewrite !hex_decode_encode. simpl. rewrite !parse_render_Z. simpl.
  by destruct p.
Qed.

(** [verify] accepts the tokens [sign] made under the same non-empty
    secret until the clock, in seconds, reaches [exp]. *)
Lemma verify_sign p key clock :
  key ≠ "" ->
  verify (sign p key) (Some key) clock
  = if bool_decide (Jwt.exp p <= clock / 1000) then None else Some p.
Proof.
  intros Hkey. unfold verify. rewrite decode_sign.
  destruct key as [|c key]; [done|].
  by rewrite bool_decide_eq_true_2 by done.
Qed.


End JwtModelFacts.

Module ExpirySpec.
Import Sql Auth Sessions AuthFacts.

Lemma generateAndStoreToken_ok jwt_sign JWT_SECRET userId deviceInfo uuid t0 s token :
  result (generateAndStoreToken jwt_sign JWT_SECRET userId deviceInfo uuid t0 s)
  = inl token ->
  ∃ key,
    JWT_SECRET = Some key
    ∧ token = jwt_sign {| Jwt.sub := userId; Jwt.jti := uuid; Jwt.iat := t0 / 1000;
                          Jwt.exp := t0 / 1000 + TOKEN_EXPIRES_IN |} key
    ∧ final (generateAndStoreToken jwt_sign JWT_SECRET userId deviceInfo uuid t0 s)
      = set_user_tokens
          (user_tokens s ++
           [{| ut_id := uuid; ut_user_id := userId; ut_token := token;
               ut_expires_at := (t0 / 1000 + TOKEN_EXPIRES_IN) * 1000;
               ut_issued_at := t0 / 1000 * 1000 |}]) s.
Proof.
  unfold generateAndStoreToken, config_JWT_SECRET.
  destruct JWT_SECRET as [key|]; simpl; [|discriminate].
  case_bool_decide as Hkey; [discriminate|].
  db_simpl. unfold insert_token. simpl.
  destruct (bool_decide (uuid ∈ _)); simpl; [discriminate|].
  intros [= <-]. by exists key.
Qed.

Lemma find_token_with_expiry f id token (l : list user_token) :
  is_Some (list_find (fun r => ut_id r = id ∧ ut_token r = token)
             ((fun r => {| ut_id := ut_id r; ut_user_id := ut_user_id r;
                           ut_token := ut_token r; ut_expires_at := f r;
                           ut_issued_at := ut_issued_at r |}) <$> l))
  ↔ is_Some (list_find (fun r => ut_id r = id ∧ ut_token r = token) l).
Proof.
  rewrite list_find_fmap, fmap_is_Some. done.
Qed.

(** The stored [expires_at] is not read: rewriting the stored expiry of
    the rows in any way leaves the outcome of every authentication
    attempt unchanged. *)
Lemma stored_expiry_is_not_read
    (jwt_verify : string -> option string -> Z -> option Jwt.payload)
    (JWT_SECRET : option string) f s authorization now :
  result (authenticateJWT jwt_verify JWT_SECRET authorization now (with_expiry f s))
  = result (authenticateJWT jwt_verify JWT_SECRET authorization now s).
Proof.
  destruct (Js.bearer_token (default "" authorization)) as [token|] eqn:Hb.
  - destruct (jwt_verify token JWT_SECRET now) as [payload|] eqn:Hv.
    + rewrite !(authenticate_verified _ _ _ _ _ _ _ Hb Hv). cbn [result fst].
      pose proof (find_token_with_expiry f (Jwt.jti payload) token (user_tokens s))
        as Hfind.
      unfold with_expiry. simpl user_tokens.
      destruct (list_find _ (_ <$> user_tokens s)) as [x|];
        destruct (list_find _ (user_tokens s)) as [y|]; try done.
      * destruct Hfind as [Hfind _]. by destruct Hfind.
      * destruct Hfind as [_ Hfind]. by destruct Hfind.
    + by rewrite !(authenticate_unverified _ _ _ _ _ _ Hb Hv).
  - by rewrite !(authenticate_missing _ _ _ _ _ Hb).
Qed.






End ExpirySpec.

(** ** The authenticator at concrete ledgers *)

Module AuthWitnesses.
Import Sql Auth Sessions Examples.

Lemma bearer_token1 : Js.bearer_token (default "" (bearer token1)) = Some token1.
Proof. vm_compute. reflexivity. Qed.

Lemma bearer_token2 : Js.bearer_token (default "" (bearer token2)) = Some token2.
Proof. vm_compute. reflexivity. Qed.

(** C5, at a concrete ledger: [token1] is issued, then revoked; an
    attempt a week later, when its [exp] has passed, is answered
    "Invalid or expired token", not "Token not recognized or revoked". *)
Lemma revoked_then_expired_is_not_NotRecognized :
  let revoked := final (revokeToken token1 one_session) in
  let run := authenticateJWT JwtModel.verify env (bearer token1) 604801000 revoked in
  result (login1 Store.empty) = inl token1
  ∧ user_tokens revoked = []
  ∧ result run = inl (Reject InvalidSignatureOrExpired)
  ∧ result run ≠ inl (Reject NotRecognized).
Proof.
  assert (result (authenticateJWT JwtModel.verify env (bearer token1) 604801000
                    (final (revokeToken token1 one_session)))
          = inl (Reject InvalidSignatureOrExpired)) as Hrun
    by (vm_compute; reflexivity).
  split; [vm_compute; reflexivity|]. split; [vm_compute; reflexivity|].
  split; [exact Hrun|]. simpl. rewrite Hrun. discriminate.
Qed.

Lemma revocation_is_immediate_witness :
  let revoked := final (revokeToken token1 two_sessions) in
  result (select_token "t1" token1 revoked) = inl None
  ∧ authenticateJWT JwtModel.verify env (bearer token1) 3600000 revoked
    = (inl (Reject NotRecognized), revoked, [Select UserTokens])
  ∧ authenticateJWT JwtModel.verify env (bearer token1) 604801000 revoked
    = (inl (Reject InvalidSignatureOrExpired), revoked, [])
  ∧ revokeToken token1 revoked = (inl tt, revoked, [Delete UserTokens]).
Proof.
  intros revoked.
  destruct (AuthSpec.revocation_is_immediate JwtModel.verify env two_sessions token1)
    as (_ & Hlookup & Hauth & _).
  destruct (AuthSpec.revocation_is_immediate JwtModel.verify env revoked token1)
    as (_ & _ & _ & Habsent).
  split; [apply Hlookup|]. split; [|split].
  - exact (Hauth (bearer token1) 3600000 bearer_token1).
  - exact (Hauth (bearer token1) 604801000 bearer_token1).
  - apply Habsent. intros r Hr. vm_compute in Hr.
    apply list_elem_of_singleton in Hr as ->. vm_compute. discriminate.
Defined.

Lemma verification_precedes_ledger_witness :
  authenticateJWT JwtModel.verify env (bearer "forged.token") 3600000 two_sessions
  = (inl (Reject InvalidSignatureOrExpired), two_sessions, [])
  ∧ ∃ token payload,
      Js.bearer_token (default "" (bearer token2)) = Some token
      ∧ JwtModel.verify token env 3600000 = Some payload.
Proof.
  split.
  - destruct (AuthSpec.verification_precedes_ledger JwtModel.verify env
                (bearer "forged.token") 3600000 two_sessions) as [_ Hfail].
    apply (Hfail "forged.token"); vm_compute; reflexivity.
  - destruct (AuthSpec.verification_precedes_ledger JwtModel.verify env
                (bearer token2) 3600000 two_sessions) as [Hread _].
    apply Hread. vm_compute. discriminate.
Defined.

Lemma revocation_is_scoped_witness :
  let revoked := final (revokeToken token1 two_sessions) in
  result (authenticateJWT JwtModel.verify env (bearer token2) 3600000 two_sessions)
  = inl (Next "u1")
  ∧ result (authenticateJWT JwtModel.verify env (bearer token2) 3600000 revoked)
    = inl (Next "u1")
  ∧ logout JwtModel.verify env (bearer token1) 3600000 two_sessions
    = (inl LogoutSuccess, revoked, [Select UserTokens; Delete UserTokens]).
Proof.
  intros revoked.
  destruct (AuthSpec.revocation_is_scoped JwtModel.verify env two_sessions token1)
    as (_ & _ & _ & _ & Hother & Hlogout).
  assert (result (authenticateJWT JwtModel.verify env (bearer token2) 3600000
                    two_sessions) = inl (Next "u1")) as Hbefore
    by (vm_compute; reflexivity).
  split; [exact Hbefore|]. split.
  - rewrite <- Hbefore.
    apply (Hother (bearer token2) 3600000 token2 bearer_token2).
    vm_compute. discriminate.
  - apply (Hlogout (bearer token1) 3600000 "u1" bearer_token1).
    + vm_compute. discriminate.
    + vm_compute. reflexivity.
Defined.

End AuthWitnesses.

(** * Properties of the response cache *)

Module CacheFacts.
Import Cache Routes.

Section WithTtl.
Variable ttlMs : Z.
Variable production : bool.

(** The handler behind the middleware: the answer is stored under the
    key with expiry [now + ttlMs], then sent. *)
Lemma poznan_route_patched cache key upstream now :
  poznan_route ttlMs production cache
    {| statusCode := 200; json_patch := Some key |} upstream now
  = (<[key := {| expires := now + ttlMs;
                 value := body (handler_answer production upstream) |}]> cache,
     handler_answer production upstream).
Proof.
  unfold handler_answer, poznan_route, errorHandler, res_json.
  by destruct upstream as [mapped|err].
Qed.

Lemma serve_hit cache url now later upstream e :
  cache !! url = Some e ->
  now < expires e ->
  serve ttlMs production cache url now later upstream
  = {| cache_after := cache; sent := {| status := 200; body := value e |};
       compute_invoked := false |}.
Proof.
  intros He Hlive. unfold serve, cache_middleware. simpl.
  rewrite He. by rewrite bool_decide_eq_true_2.
Qed.

Lemma serve_expired cache url now later upstream e :
  cache !! url = Some e ->
  expires e <= now ->
  serve ttlMs production cache url now later upstream
  = {| cache_after :=
         <[url := {| expires := later + ttlMs;
                     value := body (handler_answer production upstream) |}]>
           (delete url cache);
       sent := handler_answer production upstream;
       compute_invoked := true |}.
Proof.
  intros He Hdead. unfold serve, cache_middleware. simpl.
  rewrite He. rewrite bool_decide_eq_false_2 by lia. simpl.
  by rewrite poznan_route_patched.
Qed.

Lemma serve_miss cache url now later upstream :
  cache !! url = None ->
  serve ttlMs production cache url now later upstream
  = {| cache_after :=
         <[url := {| expires := later + ttlMs;
                     value := body (handler_answer production upstream) |}]> cache;
       sent := handler_answer production upstream;
       compute_invoked := true |}.
Proof.
  intros He. unfold serve, cache_middleware. simpl.
  rewrite He. simpl. by rewrite poznan_route_patched.
Qed.

(** A GET that ran the upstream step left its answer under the key. *)
Lemma serve_filled cache url now later upstream :
  let first := serve ttlMs production cache url now later upstream in
  compute_invoked first = true ->
  cache_after first !! url
  = Some {| expires := later + ttlMs; value := body (sent first) |}.
Proof.
  simpl. destruct (cache !! url) as [e|] eqn:He.
  - destruct (decide (now < expires e)) as [Hlive|Hdead].
    + by rewrite (serve_hit _ _ _ _ _ _ He Hlive).
    + rewrite (serve_expired _ _ _ _ _ _ He) by lia. simpl.
      by rewrite lookup_insert_eq.
  - rewrite (serve_miss _ _ _ _ _ He). simpl. by rewrite lookup_insert_eq.
Qed.

End WithTtl.

End CacheFacts.

Module CacheSpec.
Import Cache Routes CacheFacts Examples.

(** C6.  After a cache-filling GET for [url] that stored its answer at
    instant [t0], under a TTL [ttlMs]: a GET for [url] entering at any
    instant strictly before [t0 + ttlMs] is answered with the stored
    value, the upstream step is not run and the cache is left as it was;
    a GET entering at any instant strictly after [t0 + ttlMs] runs the
    upstream step again, is answered with what the handler sends now (as
    on an empty cache), and leaves under the key that fresh answer with
    expiry (instant of sending) + [ttlMs]. *)
Theorem cache_freshness_boundary (ttlMs : Z) (production : bool)
    (cache : gmap string entry) (url : string) (now0 t0 : Z) (upstream0 : computed) :
  let first := serve ttlMs production cache url now0 t0 upstream0 in
  compute_invoked first = true ->
  (∀ now later upstream,
      now < t0 + ttlMs ->
      serve ttlMs production (cache_after first) url now later upstream
      = {| cache_after := cache_after first;
           sent := {| status := 200; body := body (sent first) |};
           compute_invoked := false |})
  ∧ (∀ now later upstream,
       t0 + ttlMs < now ->
       let again :=
         serve ttlMs production (cache_after first) url now later upstream in
       compute_invoked again = true
       ∧ sent again = sent (serve ttlMs production ∅ url now later upstream)
       ∧ cache_after again !! url
         = Some {| expires := later + ttlMs; value := body (sent again) |}).
Proof.
  intros first Hfill.
  pose proof (serve_filled ttlMs production cache url now0 t0 upstream0 Hfill) as Hentry.
  fold first in Hentry. split.
  - intros now later upstream Hlive.
    by rewrite (serve_hit _ _ _ _ _ _ _ _ Hentry Hlive).
  - intros now later upstream Hdead again. subst again.
    rewrite (serve_expired _ _ _ _ _ _ _ _ Hentry) by (simpl; lia).
    rewrite (serve_miss _ _ ∅) by apply lookup_empty. simpl.
    by rewrite lookup_insert_eq.
Qed.

Lemma cache_freshness_boundary_witness :
  let first := serve CACHE_TTL_MS true ∅ "/v1/poznan" 1000 1200 (Computed stops) in
  serve CACHE_TTL_MS true (cache_after first) "/v1/poznan" 301199 301300
        (Computed (JArr []))
  = {| cache_after := cache_after first; sent := {| status := 200; body := stops |};
       compute_invoked := false |}
  ∧ sent (serve CACHE_TTL_MS true (cache_after first) "/v1/poznan" 301201 301300
            (Computed (JArr [])))
    = {| status := 200; body := JArr [] |}.
Proof.
  intros first.
  assert (compute_invoked first = true) as Hfill by reflexivity.
  destruct (cache_freshness_boundary CACHE_TTL_MS true ∅ "/v1/poznan" 1000 1200
              (Computed stops) Hfill) as [Hlive Hdead].
  split.
  - apply (Hlive 301199 301300 (Computed (JArr []))). reflexivity.
  - destruct (Hdead 301201 301300 (Computed (JArr []))) as (_ & -> & _); reflexivity.
Defined.

(** C4, on the code.  The upstream step of [GET /v1/poznan] fails on an
    empty cache: [errorHandler] answers through the [res.json] the
    middleware replaced, so the error body is stored under the key; a
    second request within the TTL is a cache hit, answered with the
    stored error body and status 200, and the upstream step is not run
    again. *)
Theorem failed_compute_is_cached :
  let first :=
    serve CACHE_TTL_MS false ∅ "/v1/poznan" 1000 1200 (Failed upstream_down) in
  let second :=
    serve CACHE_TTL_MS false (cache_after first) "/v1/poznan" 2000 2200
          (Computed stops) in
  compute_invoked first = true
  ∧ sent first = {| status := 500; body := error_body |}
  ∧ cache_after first !! "/v1/poznan"
    = Some {| expires := 301200; value := error_body |}
  ∧ compute_invoked second = false
  ∧ sent second = {| status := 200; body := error_body |}.
Proof.
  intros first second.
  assert (first = {| cache_after :=
                       <["/v1/poznan" := {| expires := 301200; value := error_body |}]> ∅;
                     sent := {| status := 500; body := error_body |};
                     compute_invoked := true |}) as Hfirst
    by (subst first; by rewrite serve_miss by apply lookup_empty).
  assert (cache_after first !! "/v1/poznan"
          = Some {| expires := 301200; value := error_body |}) as Hentry
    by (rewrite Hfirst; apply lookup_insert_eq).
  subst second. rewrite (serve_hit _ _ _ _ _ _ _ _ Hentry) by done.
  rewrite Hfirst in *. done.
Qed.

End CacheSpec.

(** ** The reaction ledger at concrete stores *)

Module LedgerWitnesses.
Import Sql EventModel Ledger LedgerFacts Examples.

Lemma few_rows_one_per_pair s :
  (length (event_likes s) ≤ 1)%nat -> one_reaction_per_pair s.
Proof.
  intros Hlen e u. unfold rows_for.
  pose proof (length_filter (fun r => el_event_id r = e ∧ el_user_id r = u)
                (event_likes s)). lia.
Qed.

Lemma likeOrDislikeEvent_algorithm_witness :
  likeOrDislikeEvent "e0" "u1" like "r2" 20 liked_once
  = (inl {| eventExists := false; updated := false |}, liked_once, [Select Events])
  ∧ likeOrDislikeEvent "e1" "u2" dislike "r2" 20 liked_once
    = (inl {| eventExists := true; updated := false |},
       set_event_likes
         (event_likes liked_once ++ [new_reaction "r2" "e1" "u2" dislike 20])
         liked_once,
       [Select Events; Select EventLikes; Insert EventLikes])
  ∧ likeOrDislikeEvent "e1" "u1" dislike "r2" 20 liked_once
    = (inl {| eventExists := true; updated := true |},
       set_event_likes [new_reaction "r1" "e1" "u1" dislike 20] liked_once,
       [Select Events; Select EventLikes; Update EventLikes])
  ∧ likeOrDislikeEvent "e1" "u1" like "r2" 20 liked_once
    = (inl {| eventExists := true; updated := false |}, liked_once,
       [Select Events; Select EventLikes]).
Proof.
  assert (one_reaction_per_pair liked_once) as Hpair
    by (apply few_rows_one_per_pair; simpl; lia).
  assert (reaction_ids_unique liked_once) as Hids
    by (unfold reaction_ids_unique; simpl; apply NoDup_singleton).
  assert (event_present "e1" liked_once) as Hev
    by (unfold event_present; simpl; apply list_elem_of_here).
  split; [|split; [|split]].
  - destruct (ToggleSpec.likeOrDislikeEvent_algorithm liked_once "e0" "u1" like "r2" 20
                Hpair Hids) as (Habsent & _).
    apply Habsent. unfold event_present. simpl.
    intros [Hc|Hc]%elem_of_cons; [discriminate Hc|by apply elem_of_nil in Hc].
  - destruct (ToggleSpec.likeOrDislikeEvent_algorithm liked_once "e1" "u2" dislike "r2" 20
                Hpair Hids) as (_ & Hinsert & _).
    apply Hinsert; [exact Hev|reflexivity|]. simpl.
    intros [Hc|Hc]%elem_of_cons; [discriminate Hc|by apply elem_of_nil in Hc].
  - destruct (ToggleSpec.likeOrDislikeEvent_algorithm liked_once "e1" "u1" dislike "r2" 20
                Hpair Hids) as (_ & _ & Hflip & _).
    apply (Hflip 0%nat (new_reaction "r1" "e1" "u1" like 10));
      [exact Hev|reflexivity|reflexivity|discriminate].
  - destruct (ToggleSpec.likeOrDislikeEvent_algorithm liked_once "e1" "u1" like "r2" 20
                Hpair Hids) as (_ & _ & _ & Hsame).
    apply (Hsame 0%nat (new_reaction "r1" "e1" "u1" like 10));
      [exact Hev|reflexivity|reflexivity|reflexivity].
Defined.

Lemma at_most_one_reaction_per_pair_witness :
  one_reaction_per_pair fresh_event
  ∧ one_reaction_per_pair (run_ops (take 6 busy_afternoon) fresh_event).
Proof.
  assert (one_reaction_per_pair fresh_event) as H0
    by (apply few_rows_one_per_pair; simpl; lia).
  split; [exact H0|].
  exact (LedgerInvariant.at_most_one_reaction_per_pair busy_afternoon fresh_event H0 6).
Defined.

Lemma toggle_like_twice_witness :
  let first := likeOrDislikeEvent "e1" "u1" like "r1" 10 fresh_event in
  let second := likeOrDislikeEvent "e1" "u1" like "r2" 11 (final first) in
  result first = inl {| eventExists := true; updated := false |}
  ∧ result second = inl {| eventExists := true; updated := false |}
  ∧ final second = final first
  ∧ result (getEventReactions "e1" (final second))
    = inl {| likes := 1; dislikes := 0 |}.
Proof.
  assert (event_present "e1" fresh_event) as Hev
    by (unfold event_present; simpl; apply list_elem_of_here).
  assert ("r1" ∉ el_id <$> event_likes fresh_event) as Hfresh
    by (simpl; apply not_elem_of_nil).
  destruct (ToggleSequences.toggle_like_twice fresh_event "e1" "u1" "r1" "r2" 10 11
              Hev eq_refl Hfresh) as (H1 & H2 & H3 & _ & _ & H6).
  exact (conj H1 (conj H2 (conj H3 (H6 eq_refl)))).
Defined.

Lemma toggle_like_then_dislike_witness :
  let first := likeOrDislikeEvent "e1" "u1" like "r1" 10 fresh_event in
  let second := likeOrDislikeEvent "e1" "u1" dislike "r2" 11 (final first) in
  result first = inl {| eventExists := true; updated := false |}
  ∧ result second = inl {| eventExists := true; updated := true |}
  ∧ event_likes (final second) = [new_reaction "r1" "e1" "u1" dislike 11]
  ∧ result (getEventReactions "e1" (final second))
    = inl {| likes := 0; dislikes := 1 |}.
Proof.
  assert (event_present "e1" fresh_event) as Hev
    by (unfold event_present; simpl; apply list_elem_of_here).
  assert ("r1" ∉ el_id <$> event_likes fresh_event) as Hfresh
    by (simpl; apply not_elem_of_nil).
  destruct (ToggleSequences.toggle_like_then_dislike fresh_event "e1" "u1" "r1" "r2"
              10 11 Hev eq_refl Hfresh) as (H1 & H2 & H3 & _ & _ & H6).
  exact (conj H1 (conj H2 (conj H3 (H6 eq_refl)))).
Defined.

End LedgerWitnesses.

(** * Further properties of the reaction ledger *)

Module LedgerMore.
Import Sql EventModel Ledger ToggleCases LedgerFacts.

Lemma find_reaction_None_rows eventId userId s :
  find_reaction eventId userId (event_likes s) = None ->
  rows_for eventId userId s = [].
Proof.
  unfold find_reaction, rows_for. intros Hnone.
  apply list_find_None in Hnone.
  induction (event_likes s) as [|a l IH]; [done|].
  apply Forall_cons in Hnone as [Ha Hl].
  rewrite filter_cons_False by done. by apply IH.
Qed.

(** Under UNIQUE(event_id, user_id) the row a lookup finds is the only
    row of the pair. *)
Lemma find_reaction_Some_rows eventId userId s i ex :
  one_reaction_per_pair s ->
  find_reaction eventId userId (event_likes s) = Some (i, ex) ->
  rows_for eventId userId s = [ex].
Proof.
  intros Huniq Hfind. apply list_find_Some in Hfind as (Hi & HP & _).
  specialize (Huniq eventId userId). unfold rows_for in *.
  assert (ex ∈ filter (fun r => el_event_id r = eventId ∧ el_user_id r = userId)
                      (event_likes s)) as Hin
    by (apply list_elem_of_filter; split; [done|by eapply list_elem_of_lookup_2]).
  destruct (filter _ (event_likes s)) as [|a [|b rest]]; simpl in Huniq.
  - by apply elem_of_nil in Hin.
  - by apply list_elem_of_singleton in Hin as ->.
  - lia.
Qed.

Lemma toggle_collision_run eventId userId reaction uuid now s :
  event_present eventId s ->
  find_reaction eventId userId (event_likes s) = None ->
  uuid ∈ el_id <$> event_likes s ->
  likeOrDislikeEvent eventId userId reaction uuid now s
  = (inr (SqliteConstraint "event_likes.id"), s,
     [Select Events; Select EventLikes; Insert EventLikes]).
Proof.
  intros Hev Hnone Hused. unfold likeOrDislikeEvent. db_simpl.
  rewrite (select_event_present _ _ Hev).
  unfold select_reaction. rewrite Hnone. simpl.
  unfold insert_reaction. simpl.
  by rewrite bool_decide_eq_true_2 by done.
Qed.

(** The toggle ends in one of the five runs of [toggle_outcome]. *)
Lemma toggle_outcomes eventId userId reaction uuid now s :
  toggle_outcome eventId userId reaction uuid now s
    (likeOrDislikeEvent eventId userId reaction uuid now s).
Proof.
  destruct (decide (eventId ∈ ev_id <$> events s)) as [Hev|Habs].
  - destruct (find_reaction eventId userId (event_likes s)) as [[i ex]|] eqn:Hfind.
    + destruct (decide (el_reaction ex = reaction)) as [Heq|Hne].
      * rewrite (toggle_same_run _ _ _ _ _ _ i ex Hev Hfind Heq).
        by eapply toggle_keeps.
      * rewrite (toggle_update_run _ _ _ _ _ _ i ex Hev Hfind Hne).
        by eapply toggle_flips.
    + pose proof (find_reaction_None_rows _ _ _ Hfind) as Hnone.
      destruct (decide (uuid ∈ el_id <$> event_likes s)) as [Hused|Hfresh].
      * rewrite (toggle_collision_run _ _ _ _ _ _ Hev Hfind Hused).
        by apply toggle_collides.
      * rewrite (toggle_insert_run _ _ _ _ _ _ Hev Hnone Hfresh).
        by apply toggle_inserts.
  - rewrite (toggle_absent_run _ _ _ _ _ _ Habs). by apply toggle_absent.
Qed.

Lemma set_reaction_id reaction now id r :
  el_id (set_reaction reaction now id r) = el_id r.
Proof. unfold set_reaction. by case_decide. Qed.

Lemma set_reaction_event reaction now id r :
  el_event_id (set_reaction reaction now id r) = el_event_id r.
Proof. unfold set_reaction. by case_decide. Qed.

Lemma set_reaction_user reaction now id r :
  el_user_id (set_reaction reaction now id r) = el_user_id r.
Proof. unfold set_reaction. by case_decide. Qed.

Lemma set_reaction_hit reaction now r :
  el_reaction (set_reaction reaction now (el_id r) r) = reaction.
Proof. unfold set_reaction. by rewrite decide_True. Qed.

(** A filter on the pair commutes with the UPDATE. *)
Lemma filter_pair_set_reaction eventId userId reaction now id (l : list event_like) :
  filter (fun r => el_event_id r = eventId ∧ el_user_id r = userId)
         (set_reaction reaction now id <$> l)
  = set_reaction reaction now id
      <$> filter (fun r => el_event_id r = eventId ∧ el_user_id r = userId) l.
Proof.
  induction l as [|a l IH]; [done|].
  rewrite fmap_cons, !filter_cons.
  rewrite set_reaction_event, set_reaction_user.
  destruct (decide (el_event_id a = eventId ∧ el_user_id a = userId));
    [rewrite fmap_cons|]; by rewrite IH.
Qed.

(** What the pair holds after a toggle that found the event. *)
Lemma toggle_leaves_requested eventId userId reaction uuid now s r :
  one_reaction_per_pair s ->
  result (likeOrDislikeEvent eventId userId reaction uuid now s) = inl r ->
  eventExists r = true ->
  ∃ row,
    rows_for eventId userId
      (final (likeOrDislikeEvent eventId userId reaction uuid now s)) = [row]
    ∧ el_reaction row = reaction.
Proof.
  intros Huniq Hres Hex.
  destruct (toggle_outcomes eventId userId reaction uuid now s)
    as [Habs|Hev Hnone Hused|Hev Hnone Hfresh|i ex Hev Hfind Hne|i ex Hev Hfind Heq];
    cbn [result final fst snd] in *.
  - injection Hres as <-. discriminate Hex.
  - discriminate Hres.
  - exists (new_reaction uuid eventId userId reaction now). split; [|done].
    unfold rows_for in *. simpl. rewrite filter_app, Hnone.
    by rewrite filter_cons_True.
  - exists (set_reaction reaction now (el_id ex) ex). split.
    + unfold rows_for. simpl. rewrite filter_pair_set_reaction.
      pose proof (find_reaction_Some_rows _ _ _ _ _ Huniq Hfind) as Hrows.
      unfold rows_for in Hrows. by rewrite Hrows.
    + apply set_reaction_hit.
  - exists ex. split; [|done]. by eapply find_reaction_Some_rows.
Qed.

End LedgerMore.

Module LedgerExtras.
Import Sql EventModel Ledger LedgerFacts LedgerMore.

(** X1.  [getEventReactions] returns, for any event id, the number of
    reaction rows on that event with polarity 1 and with polarity -1 (so
    [{0, 0}] for an event without rows, where both SUMs are NULL);
    neither count is negative, together they never exceed the rows on the
    event, and the query leaves the store as it was. *)
Theorem reaction_counts_are_row_counts (eventId : string) (s : store) :
  let rows := rows_on eventId s in
  let count v := Z.of_nat (length (filter (fun r => el_reaction r = v) rows)) in
  getEventReactions eventId s
  = (inl {| likes := count 1; dislikes := count (-1) |}, s, [Select EventLikes])
  ∧ 0 <= count 1
  ∧ 0 <= count (-1)
  ∧ count 1 + count (-1) <= Z.of_nat (length rows)
  ∧ (rows = [] -> count 1 = 0 ∧ count (-1) = 0).
Proof.
  intros rows count. split; [apply getEventReactions_run|].
  split; [apply Nat2Z.is_nonneg|]. split; [apply Nat2Z.is_nonneg|]. split.
  - subst count. simpl. induction rows as [|a rows IH]; [done|].
    rewrite !filter_cons.
    destruct (decide (el_reaction a = 1)) as [H1|H1];
      destruct (decide (el_reaction a = -1)) as [H2|H2]; simpl length; lia.
  - by intros ->.
Qed.

(** X2.  After a toggle that returns with [eventExists = true], the pair
    (eventId, userId) has exactly one reaction row, that row carries the
    requested polarity, and the table holds as many rows as before or one
    more. *)
Theorem toggle_leaves_requested_polarity (s : store) (eventId userId : string)
    (reaction : Z) (uuid : string) (now : Z) (r : LikeDislikeResult) :
  one_reaction_per_pair s ->
  let run := likeOrDislikeEvent eventId userId reaction uuid now s in
  result run = inl r ->
  eventExists r = true ->
  (∃ row,
     rows_for eventId userId (final run) = [row]
     ∧ el_reaction row = reaction
     ∧ row ∈ event_likes (final run))
  ∧ (length (event_likes s) ≤ length (event_likes (final run)) ≤ S (length (event_likes s)))%nat.
Proof.
  intros Huniq run Hres Hex.
  destruct (toggle_leaves_requested _ _ _ _ _ _ _ Huniq Hres Hex) as (row & Hrows & Hpol).
  fold run in Hrows. split.
  - exists row. split; [done|]. split; [done|].
    assert (row ∈ rows_for eventId userId (final run)) as Hin
      by (rewrite Hrows; apply list_elem_of_here).
    unfold rows_for in Hin. by apply list_elem_of_filter in Hin as [_ Hin].
  - subst run.
    destruct (toggle_outcomes eventId userId reaction uuid now s);
      cbn [final fst snd]; simpl event_likes;
      rewrite ?length_app, ?length_fmap; simpl; lia.
Qed.

(** A row of another pair is not the row the UPDATE rewrites. *)
Lemma other_pair_untouched reaction now (l : list event_like) i ex eventId userId :
  NoDup (el_id <$> l) ->
  l !! i = Some ex ->
  filter (fun r => el_event_id r = eventId ∧ el_user_id r = userId)
         (set_reaction reaction now (el_id ex) <$> l)
  = if decide (el_event_id ex = eventId ∧ el_user_id ex = userId)
    then set_reaction reaction now (el_id ex)
           <$> filter (fun r => el_event_id r = eventId ∧ el_user_id r = userId) l
    else filter (fun r => el_event_id r = eventId ∧ el_user_id r = userId) l.
Proof.
  intros Hnd Hi. rewrite filter_pair_set_reaction.
  case_decide as Hpair; [done|].
  rewrite <- (list_fmap_id (filter _ l)) at 2.
  apply list_fmap_ext. intros j r Hj.
  assert (r ∈ filter (fun r => el_event_id r = eventId ∧ el_user_id r = userId) l) as Hin
    by (by eapply list_elem_of_lookup_2).
  apply list_elem_of_filter in Hin as [HP Hin].
  unfold set_reaction. rewrite decide_False; [done|].
  intros Hid. apply Hpair.
  apply list_elem_of_lookup in Hin as [k Hk].
  assert (k = i) as ->.
  { eapply NoDup_lookup; [exact Hnd| |]; rewrite list_lookup_fmap.
    - rewrite Hk. simpl. by rewrite Hid.
    - by rewrite Hi. }
  by simplify_eq.
Qed.

(** X3.  A toggle for (eventId, userId) leaves the reaction rows of every
    other pair (another user on the same event, the same user on another
    event) exactly as they were, whether it inserts, flips, does nothing
    or fails, and it never touches the events or the session tokens. *)
Theorem toggle_touches_one_pair (s : store) (eventId userId : string)
    (reaction : Z) (uuid : string) (now : Z) :
  reaction_ids_unique s ->
  let s' := final (likeOrDislikeEvent eventId userId reaction uuid now s) in
  (∀ e u, (e, u) ≠ (eventId, userId) -> rows_for e u s' = rows_for e u s)
  ∧ events s' = events s
  ∧ user_tokens s' = user_tokens s.
Proof.
  intros Hids s'. subst s'.
  destruct (toggle_outcomes eventId userId reaction uuid now s)
    as [Habs|Hev Hnone Hused|Hev Hnone Hfresh|i ex Hev Hfind Hne|i ex Hev Hfind Heq];
    cbn [final fst snd]; (split; [|done]); try done.
  - intros e u Hother. unfold rows_for. simpl. rewrite filter_app.
    rewrite filter_cons_False; [by rewrite filter_nil, app_nil_r|].
    simpl. intros [-> ->]. by apply Hother.
  - intros e u Hother. unfold rows_for. simpl.
    apply list_find_Some in Hfind as (Hi & [He Hu] & _).
    rewrite (other_pair_untouched _ _ _ i ex e u Hids Hi).
    rewrite decide_False; [done|]. intros [<- <-]. apply Hother. by rewrite He, Hu.
Qed.

Lemma toggle_keeps_ids_unique eventId userId reaction uuid now s :
  reaction_ids_unique s ->
  reaction_ids_unique (final (likeOrDislikeEvent eventId userId reaction uuid now s)).
Proof.
  intros Hids. unfold reaction_ids_unique in *.
  destruct (toggle_outcomes eventId userId reaction uuid now s)
    as [Habs|Hev Hnone Hused|Hev Hnone Hfresh|i ex Hev Hfind Hne|i ex Hev Hfind Heq];
    cbn [final fst snd]; simpl event_likes; try done.
  - rewrite fmap_app. apply NoDup_app. split; [done|]. split; [|apply NoDup_singleton].
    intros x Hx. simpl. intros ->%list_elem_of_singleton. by apply Hfresh.
  - rewrite <- list_fmap_compose.
    erewrite list_fmap_ext; [exact Hids|].
    intros j r _. simpl. apply set_reaction_id.
Qed.

(** X4.  Along every sequence of operations of the Reaction Ledger the
    ids of the reaction rows stay pairwise distinct (the PRIMARY KEY of
    [event_likes]), whatever [uuidv4()] returns: an insert whose id is
    taken is refused and writes nothing. *)
Theorem reaction_ids_stay_unique (ops : list ledger_op) (s : store) :
  reaction_ids_unique s ->
  ∀ n : nat, reaction_ids_unique (run_ops (take n ops) s).
Proof.
  intros Hids n. revert s Hids n.
  induction ops as [|op ops IH]; intros s Hids n.
  - by rewrite take_nil.
  - destruct n as [|n]; [done|]. simpl. apply IH.
    destruct op as [e u r uuid now|e]; simpl; [|done].
    by apply toggle_keeps_ids_unique.
Qed.

Lemma find_reaction_updated eventId userId reaction now (l : list event_like) i ex :
  find_reaction eventId userId l = Some (i, ex) ->
  find_reaction eventId userId (set_reaction reaction now (el_id ex) <$> l)
  = Some (i, set_reaction reaction now (el_id ex) ex).
Proof.
  unfold find_reaction. intros Hfind. rewrite list_find_fmap.
  erewrite list_find_ext; [rewrite Hfind; done|].
  intros r. simpl. by rewrite set_reaction_event, set_reaction_user.
Qed.

(** X5.  Repeating a toggle is a no-op, from any store: when a call
    returns, the same call made again (with whatever [uuidv4()] and
    instant) returns the same [eventExists] with [updated = false], leaves
    the store as the first call left it and sends no writing statement. *)
Theorem toggle_is_idempotent (s : store) (eventId userId : string) (reaction : Z)
    (uuid1 uuid2 : string) (now1 now2 : Z) (r : LikeDislikeResult) :
  let first := likeOrDislikeEvent eventId userId reaction uuid1 now1 s in
  let second := likeOrDislikeEvent eventId userId reaction uuid2 now2 (final first) in
  result first = inl r ->
  result second = inl {| eventExists := eventExists r; updated := false |}
  ∧ final second = final first
  ∧ Forall (fun a => is_write a = false) (trace second).
Proof.
  intros first second Hres. subst first second.
  destruct (toggle_outcomes eventId userId reaction uuid1 now1 s)
    as [Habs|Hev Hnone Hused|Hev Hnone Hfresh|i ex Hev Hfind Hne|i ex Hev Hfind Heq];
    cbn [result final fst snd] in *.
  - injection Hres as <-. rewrite (toggle_absent_run _ _ _ _ _ _ Habs).
    repeat split. by repeat constructor.
  - discriminate Hres.
  - injection Hres as <-.
    rewrite (toggle_same_run eventId userId reaction uuid2 now2 _
               (length (event_likes s))
               (new_reaction uuid1 eventId userId reaction now1));
      [|done|by apply find_reaction_appended|done].
    repeat split. by repeat constructor.
  - injection Hres as <-.
    rewrite (toggle_same_run eventId userId reaction uuid2 now2 _ i
               (set_reaction reaction now1 (el_id ex) ex));
      [|done|by apply find_reaction_updated|by apply set_reaction_hit].
    repeat split. by repeat constructor.
  - injection Hres as <-.
    rewrite (toggle_same_run _ _ _ _ _ _ i ex Hev Hfind Heq).
    repeat split. by repeat constructor.
Qed.

End LedgerExtras.

Module EventQueryExtras.
Import Sql EventModel Ledger LedgerFacts EventQueries.

Lemma find_event_appended (l : list event_row) row id :
  ev_id row = id ->
  id ∉ ev_id <$> l ->
  list_find (fun e => ev_id e = id) (l ++ [row]) = Some (length l, row).
Proof.
  intros Hid Hfresh. rewrite list_find_app_r.
  - simpl. rewrite decide_True by done. done.
  - apply list_find_None, Forall_forall. intros e He Heq. apply Hfresh.
    apply list_elem_of_fmap. by exists e.
Qed.

(** X6.  [createEvent] and the NOT NULL columns of [events].  When the
    object passed has a [stopId] and a [type] and the id drawn is not in
    use, the event is stored and found again: creation adds the one row
    and touches nothing else, and [getEventById] of that id returns the
    stored fields with the counts the ledger holds for the id.  With an
    id in use the insert is refused.  Without a [stopId] the insert is
    refused by NOT NULL before anything is written; such is every body
    [eventCreateSchema] lets through, so the object [POST /v1/events]
    passes never creates an event.  Whenever [createEvent] throws, the
    store is left as it was. *)
Theorem created_event_is_found (s : store) (data : eventData)
    (createdBy : option string) (uuid : string) (now : Z) :
  let create := createEvent data createdBy uuid now s in
  (∀ stopId type,
     ed_stopId data = Some stopId ->
     ed_type data = Some type ->
     (uuid ∉ ev_id <$> events s ->
        result create
        = inl {| ce_id := uuid; ce_eventData := data; ce_timestamp := now;
                 ce_created_by := createdBy; ce_likes := 0; ce_dislikes := 0 |}
        ∧ events (final create)
          = events s ++ [{| ev_id := uuid; ev_stopId := stopId; ev_type := type;
                            ev_description := ed_description data;
                            ev_timestamp := now; ev_created_by := createdBy |}]
        ∧ event_likes (final create) = event_likes s
        ∧ user_tokens (final create) = user_tokens s
        ∧ result (getEventById uuid (final create))
          = inl (Some {| view_id := uuid; view_stopId := stopId; view_type := type;
                         view_description := ed_description data;
                         view_timestamp := now; view_created_by := None;
                         view_likes := tally like (rows_on uuid s);
                         view_dislikes := tally dislike (rows_on uuid s) |}))
     ∧ (uuid ∈ ev_id <$> events s ->
          create = (inr (SqliteConstraint "events.id"), s, [Insert Events])))
  ∧ (ed_stopId data = None ->
       create = (inr (SqliteConstraint "events.stopId"), s, [Insert Events]))
  ∧ (eventCreateSchema_keys data ->
       create = (inr (SqliteConstraint "events.stopId"), s, [Insert Events]))
  ∧ (∀ e, result create = inr e -> final create = s).
Proof.
  intros create. subst create. unfold createEvent, insert_event. db_simpl.
  split; [|split; [|split]].
  - intros stopId type -> ->. split.
    + intros Hfresh. rewrite bool_decide_eq_false_2 by done.
      cbn [result final fst snd]. split; [done|]. split; [done|].
      split; [done|]. split; [done|].
      unfold getEventById. db_simpl. unfold select_event. cbn [events set_events].
      rewrite (find_event_appended (events s)
                 {| ev_id := uuid; ev_stopId := stopId; ev_type := type;
                    ev_description := ed_description data; ev_timestamp := now;
                    ev_created_by := createdBy |} uuid) by done.
      cbn [fmap option_fmap option_map snd]. rewrite getEventReactions_run.
      cbn [result fst snd]. unfold rows_on. reflexivity.
    + intros Hused. by rewrite bool_decide_eq_true_2.
  - by intros ->.
  - by intros (_ & _ & _ & ->).
  - intros e. destruct (ed_stopId data) as [stopId|]; [|done].
    destruct (ed_type data) as [type|]; [|done].
    destruct (bool_decide (uuid ∈ ev_id <$> events s)); [done|].
    cbn [result fst]. intros He. discriminate He.
Qed.

(** X7.  [getEventById] of an id that no event carries returns null
    after a single read of [events]: the reactions are not queried and
    nothing is written. *)
Theorem unknown_event_is_null (s : store) (eventId : string) :
  eventId ∉ ev_id <$> events s ->
  getEventById eventId s = (inl None, s, [Select Events]).
Proof.
  intros Habs. unfold getEventById. db_simpl. unfold select_event.
  destruct (list_find _ (events s)) as [[i row]|] eqn:Hfind; [|done].
  apply list_find_Some in Hfind as (Hi & Hid & _).
  exfalso. apply Habs. apply list_elem_of_fmap. exists row. split; [done|].
  by eapply list_elem_of_lookup_2.
Qed.

(** Lookups in the object [getEventsReactions] builds. *)
Lemma assigned_assign k a v o :
  assigned k (assign a v o) = if decide (a = k) then Some v else assigned k o.
Proof.
  unfold assigned, assign.
  destruct (decide (a = k)) as [->|Hne].
  - destruct (bool_decide (k = "__proto__")); simpl; [done|].
    by rewrite lookup_insert_eq.
  - case_bool_decide as Ha; case_bool_decide as Hk; simpl; try done.
    + congruence.
    + by rewrite lookup_insert_ne.
Qed.

Lemma own_proto_assign a v o :
  own o !! "__proto__" = None -> own (assign a v o) !! "__proto__" = None.
Proof.
  intros Ho. unfold assign. case_bool_decide as Ha; simpl; [done|].
  by rewrite lookup_insert_ne.
Qed.

Lemma own_proto_foldl {A} (f : A -> string * reactions) (l : list A) o :
  own o !! "__proto__" = None ->
  own (foldl (fun acc x => assign (fst (f x)) (snd (f x)) acc) o l) !! "__proto__"
  = None.
Proof.
  revert o. induction l as [|a l IH]; intros o Ho; [done|].
  cbn [foldl]. apply IH. by apply own_proto_assign.
Qed.

Lemma assigned_foldl_defaults (v : reactions) (ids : list string) o k :
  assigned k (foldl (fun acc id => assign id v acc) o ids)
  = if decide (k ∈ ids) then Some v else assigned k o.
Proof.
  revert o. induction ids as [|a ids IH]; intros o.
  - rewrite decide_False; [done|]. apply not_elem_of_nil.
  - cbn [foldl]. rewrite IH, assigned_assign.
    destruct (decide (k ∈ ids)) as [Hin|Hout].
    + rewrite decide_True; [done|]. by right.
    + destruct (decide (a = k)) as [->|Hne].
      * rewrite decide_True; [done|]. by left.
      * rewrite decide_False; [done|].
        intros [?|?]%elem_of_cons; congruence.
Qed.

Lemma assigned_foldl_groups (h : string -> sums_row) (groups : list string) o k :
  assigned k
    (foldl (fun acc (row : string * sums_row) =>
              assign (fst row)
                     {| likes := or_zero (likes_col (snd row));
                        dislikes := or_zero (dislikes_col (snd row)) |} acc)
           o ((fun e => (e, h e)) <$> groups))
  = if decide (k ∈ groups)
    then Some {| likes := or_zero (likes_col (h k));
                 dislikes := or_zero (dislikes_col (h k)) |}
    else assigned k o.
Proof.
  revert o. induction groups as [|a groups IH]; intros o.
  - rewrite decide_False; [done|]. apply not_elem_of_nil.
  - rewrite fmap_cons. cbn [foldl fst snd]. rewrite IH, assigned_assign.
    destruct (decide (k ∈ groups)) as [Hin|Hout].
    + rewrite decide_True; [done|]. by right.
    + destruct (decide (a = k)) as [->|Hne].
      * rewrite decide_True; [done|]. by left.
      * rewrite decide_False; [done|].
        intros [?|?]%elem_of_cons; congruence.
Qed.

Lemma filter_filter_in (ids : list string) k (l : list event_like) :
  k ∈ ids ->
  filter (fun r => el_event_id r = k) (filter (fun r => el_event_id r ∈ ids) l)
  = filter (fun r => el_event_id r = k) l.
Proof.
  intros Hk. induction l as [|a l IH]; [done|].
  rewrite !filter_cons.
  destruct (decide (el_event_id a = k)) as [Heq|Hne].
  - rewrite decide_True by (by rewrite Heq). rewrite filter_cons_True by done.
    by rewrite IH.
  - case_decide; [rewrite filter_cons_False by done|]; apply IH.
Qed.

(** X8.  [getEventsReactions] agrees with [getEventReactions].  It
    never writes, and for the empty list it returns the empty object
    without querying.  Otherwise the own properties of the object it
    returns are exactly the listed ids other than ["__proto__"], each
    holding the counts the single-event query returns for that id (zero
    and zero for an event without reactions).  The id ["__proto__"] never
    becomes a property: when it is listed, its counts become the
    prototype of the object; when it is not, the object has the
    prototype it started with. *)
Theorem batch_counts_agree (eventIds : list string) (s : store) :
  let run := getEventsReactions eventIds s in
  final run = s
  ∧ Forall (fun a => is_write a = false) (trace run)
  ∧ (eventIds = [] -> run = (inl empty_object, s, []))
  ∧ ∃ o,
      result run = inl o
      ∧ (∀ id,
           id ≠ "__proto__" ->
           (id ∈ eventIds ->
              ∃ c, own o !! id = Some c ∧ result (getEventReactions id s) = inl c)
           ∧ (id ∉ eventIds -> own o !! id = None))
      ∧ own o !! "__proto__" = None
      ∧ ("__proto__" ∈ eventIds ->
           ∃ c, prototype o = Some c
                ∧ result (getEventReactions "__proto__" s) = inl c)
      ∧ ("__proto__" ∉ eventIds -> prototype o = None).
Proof.
  intros run. subst run. destruct eventIds as [|e0 ids]; [|set (eventIds := e0 :: ids)].
  { repeat split; [constructor|].
    exists empty_object. split; [done|]. split; [|split; [done|split]].
    - intros id _. split; [by intros ?%elem_of_nil|]. intros _. apply lookup_empty.
    - by intros ?%elem_of_nil.
    - done. }
  assert (∃ o, getEventsReactions eventIds s = (inl o, s, [Select EventLikes])
               ∧ own o !! "__proto__" = None
               ∧ ∀ id, assigned id o
                       = if decide (id ∈ eventIds)
                         then Some {| likes := tally like (rows_on id s);
                                      dislikes := tally dislike (rows_on id s) |}
                         else None) as (o & Hrun & Hown & Hassigned).
  { eexists. split; [reflexivity|]. split.
    - apply (own_proto_foldl
               (fun row : string * sums_row =>
                  (fst row, {| likes := or_zero (likes_col (snd row));
                               dislikes := or_zero (dislikes_col (snd row)) |}))).
      apply (own_proto_foldl (fun id : string => (id, {| likes := 0; dislikes := 0 |}))).
      apply lookup_empty.
    - intros id. etrans; [apply assigned_foldl_groups|].
      rewrite assigned_foldl_defaults.
      assert (assigned id empty_object = None) as ->
        by (unfold assigned; simpl; by destruct (bool_decide _)).
      set (rows := filter (fun r => el_event_id r ∈ eventIds) (event_likes s)).
      destruct (decide (id ∈ eventIds)) as [Hin|Hout].
      + destruct (decide (id ∈ remove_dups (el_event_id <$> rows))) as [Hg|Hg].
        * cbn [likes_col dislikes_col]. rewrite !or_zero_sum_case.
          unfold rows. by rewrite (filter_filter_in eventIds id _ Hin).
        * assert (rows_on id s = []) as ->; [|done].
          unfold rows_on.
          destruct (filter (fun r => el_event_id r = id) (event_likes s))
            as [|r rest] eqn:Hf; [done|].
          exfalso. apply Hg. apply elem_of_remove_dups, list_elem_of_fmap.
          assert (r ∈ filter (fun r => el_event_id r = id) (event_likes s)) as Hr
            by (rewrite Hf; left).
          apply list_elem_of_filter in Hr as [Hid Hr].
          exists r. split; [done|]. apply list_elem_of_filter. split; [|done].
          by rewrite Hid.
      + rewrite decide_False; [done|].
        intros Hg. apply elem_of_remove_dups, list_elem_of_fmap in Hg as (r & -> & Hr).
        by apply list_elem_of_filter in Hr as [Hr _]. }
  rewrite Hrun. cbn [result final trace fst snd].
  split; [done|]. split; [by repeat constructor|]. split; [done|].
  exists o. split; [done|]. split; [|split; [done|split]].
  - intros id Hid. specialize (Hassigned id). unfold assigned in Hassigned.
    rewrite bool_decide_eq_false_2 in Hassigned by done.
    rewrite getEventReactions_run. cbn [result fst]. split.
    + intros Hin. rewrite decide_True in Hassigned by done. eauto.
    + intros Hout. by rewrite decide_False in Hassigned.
  - intros Hin. specialize (Hassigned "__proto__"). unfold assigned in Hassigned.
    rewrite bool_decide_eq_true_2 in Hassigned by done.
    rewrite decide_True in Hassigned by done.
    rewrite getEventReactions_run. cbn [result fst]. eauto.
  - intros Hout. specialize (Hassigned "__proto__"). unfold assigned in Hassigned.
    rewrite bool_decide_eq_true_2 in Hassigned by done.
    by rewrite decide_False in Hassigned.
Qed.

End EventQueryExtras.

(** * Further properties of the session layer *)

Module HeaderFacts.
Import Credentials JsFacts.

Lemma split_head c s :
  ∃ x xs,
    Js.split c s = x :: xs
    ∧ (c ∉ list_ascii_of_string x)
    ∧ ((xs = [] ∧ s = x) ∨ (∃ rest, s = x +:+ String c rest ∧ xs = Js.split c rest)).
Proof.
  induction s as [|a s IH].
  - exists "", []. split; [done|]. split; [apply not_elem_of_nil|]. by left.
  - simpl. destruct (Ascii.eqb a c) eqn:Hac.
    + apply Ascii.eqb_eq in Hac as ->.
      exists "", (Js.split c s). split; [done|]. split; [apply not_elem_of_nil|].
      right. by exists s.
    + apply Ascii.eqb_neq in Hac.
      destruct IH as (x & xs & -> & Hx & Hrest).
      exists (String a x), xs. split; [done|]. split.
      * simpl. apply not_elem_of_cons. split; [congruence|done].
      * destruct Hrest as [[-> ->]|(rest & -> & ->)]; [by left|].
        right. by exists rest.
Qed.

Lemma split_no_sep c s :
  c ∉ (list_ascii_of_string s) -> Js.split c s = [s].
Proof.
  induction s as [|a s IH]; [done|]. simpl.
  intros [Hne Hs]%not_elem_of_cons.
  rewrite (proj2 (Ascii.eqb_neq a c)) by congruence.
  by rewrite (IH Hs).
Qed.

Lemma bearer_of_token token :
  no_space token -> Js.bearer_token ("Bearer " +:+ token) = Some token.
Proof.
  intros Hns. unfold Js.bearer_token. simpl.
  change ("" +:+ token) with token.
  assert (Js.startsWith token "" = true) as -> by (by destruct token).
  by rewrite (split_no_sep _ _ Hns).
Qed.

(** X9.  The bearer credential of a header.  A header made of
    ["Bearer "] and a token without spaces yields that token.  Whatever
    the header, a credential that is extracted holds no space and the
    header is ["Bearer "], the credential, and then either nothing or a
    space followed by text that is ignored; a header that does not start
    with ["Bearer "] (case-sensitive, the space included) yields none. *)
Theorem bearer_token_extraction (header : string) :
  (∀ token, no_space token -> Js.bearer_token ("Bearer " +:+ token) = Some token)
  ∧ (∀ token,
       Js.bearer_token header = Some token ->
       no_space token
       ∧ (header = "Bearer " +:+ token
          ∨ ∃ ignored, header = "Bearer " +:+ token +:+ " " +:+ ignored))
  ∧ (Js.bearer_token header = None ↔ String.prefix "Bearer " header = false).
Proof.
  split; [apply bearer_of_token|]. split.
  - intros token Hb. apply bearer_token_Some in Hb as [Hp Hsplit].
    apply prefix_app in Hp as [rest ->].
    simpl in Hsplit. change ("" +:+ rest) with rest in Hsplit.
    destruct (split_head " " rest) as (x & xs & Hs & Hx & Hrest).
    rewrite Hs in Hsplit. simpl in Hsplit. injection Hsplit as ->.
    split; [exact Hx|].
    destruct Hrest as [[_ ->]|(ignored & -> & _)]; [by left|].
    right. by exists ignored.
  - split; [apply bearer_token_None|].
    intros Hp. unfold Js.bearer_token, Js.startsWith. by rewrite Hp.
Qed.

End HeaderFacts.

Module SessionFacts.
Import Sql Auth Credentials JsFacts AuthFacts HeaderFacts.

Lemma issue_cases jwt_sign JWT_SECRET userId deviceInfo uuid t0 s :
  let issue := generateAndStoreToken jwt_sign JWT_SECRET userId deviceInfo uuid t0 s in
  let payload := {| Jwt.sub := userId; Jwt.jti := uuid; Jwt.iat := t0 / 1000;
                    Jwt.exp := t0 / 1000 + TOKEN_EXPIRES_IN |} in
  (default "" JWT_SECRET = ""
   ∧ issue = (inr (JsError "JWT_SECRET is not set in environment."), s, []))
  ∨ (∃ key, JWT_SECRET = Some key ∧ key ≠ "" ∧ (uuid ∈ ut_id <$> user_tokens s)
            ∧ issue = (inr (SqliteConstraint "user_tokens.id"), s, [Insert UserTokens]))
  ∨ (∃ key, JWT_SECRET = Some key ∧ key ≠ "" ∧ (uuid ∉ ut_id <$> user_tokens s)
            ∧ issue = (inl (jwt_sign payload key),
                       set_user_tokens
                         (user_tokens s ++
                          [{| ut_id := uuid; ut_user_id := userId;
                              ut_token := jwt_sign payload key;
                              ut_expires_at := (t0 / 1000 + TOKEN_EXPIRES_IN) * 1000;
                              ut_issued_at := t0 / 1000 * 1000 |}]) s,
                       [Insert UserTokens])).
Proof.
  simpl. unfold generateAndStoreToken, config_JWT_SECRET.
  case_bool_decide as Hkey; [by left|]. right.
  destruct JWT_SECRET as [key|]; [|done]. simpl in Hkey.
  db_simpl. unfold insert_token. cbn [ut_id].
  destruct (decide (uuid ∈ ut_id <$> user_tokens s)) as [Hused|Hfresh].
  - left. exists key. rewrite bool_decide_eq_true_2 by done. done.
  - right. exists key. rewrite bool_decide_eq_false_2 by done. done.
Qed.

Lemma find_token_appended id token (l : list user_token) row :
  is_Some (list_find (fun r => ut_id r = id ∧ ut_token r = token) (l ++ [row]))
  ↔ is_Some (list_find (fun r => ut_id r = id ∧ ut_token r = token) l)
    ∨ (ut_id row = id ∧ ut_token row = token).
Proof.
  destruct (list_find (fun r => ut_id r = id ∧ ut_token r = token) l)
    as [[i x]|] eqn:Hl.
  - rewrite (list_find_app_l _ _ _ _ _ Hl). split; [by left|eauto].
  - rewrite (list_find_app_r _ _ _ Hl). simpl.
    destruct (decide (ut_id row = id ∧ ut_token row = token)) as [Hm|Hm]; simpl.
    + split; [by right|eauto].
    + split; [by intros []|]. intros [[]|?]; done.
Qed.

(** With a secret and a fresh id the issuance succeeds, and the token
    it returns authenticates on the ledger it leaves. *)
Lemma issue_then_authenticate
    (jwt_sign : Jwt.payload -> string -> string)
    (jwt_verify : string -> option string -> Z -> option Jwt.payload)
    (key : string) (s : store) (userId deviceInfo uuid : string) (t0 now : Z) :
  (∀ p key clock,
      key ≠ "" -> clock / 1000 < Jwt.exp p ->
      jwt_verify (jwt_sign p key) (Some key) clock = Some p) ->
  (∀ p key, no_space (jwt_sign p key)) ->
  key ≠ "" ->
  (uuid ∉ ut_id <$> user_tokens s) ->
  now / 1000 < t0 / 1000 + TOKEN_EXPIRES_IN ->
  let issue := generateAndStoreToken jwt_sign (Some key) userId deviceInfo uuid t0 s in
  ∃ token,
    result issue = inl token
    ∧ authenticateJWT jwt_verify (Some key) (bearer_header token) now (final issue)
      = (inl (Next userId), final issue, [Select UserTokens]).
Proof.
  intros Hverify Hspace Hkey Hfresh Hlive issue. subst issue.
  destruct (issue_cases jwt_sign (Some key) userId deviceInfo uuid t0 s)
    as [[Hnone _]|[(k & [= <-] & _ & Hused & _)|(k & [= <-] & _ & _ & Hrun)]];
    [done|done|].
  cbv zeta in Hrun. rewrite Hrun. cbn [result final fst snd].
  eexists. split; [reflexivity|].
  set (payload := {| Jwt.sub := userId; Jwt.jti := uuid; Jwt.iat := t0 / 1000;
                     Jwt.exp := t0 / 1000 + TOKEN_EXPIRES_IN |}).
  rewrite (authenticate_verified jwt_verify (Some key)
             (bearer_header (jwt_sign payload key)) now _ _ payload
             (bearer_of_token _ (Hspace payload key))
             (Hverify payload key now Hkey Hlive)).
  cbn [Jwt.jti Jwt.sub user_tokens set_user_tokens].
  set (row := {| ut_id := uuid; ut_user_id := userId;
                 ut_token := jwt_sign payload key;
                 ut_expires_at := (t0 / 1000 + TOKEN_EXPIRES_IN) * 1000;
                 ut_issued_at := t0 / 1000 * 1000 |}).
  assert (ut_id row = uuid ∧ ut_token row = jwt_sign payload key) as Hrow by done.
  destruct (proj2 (find_token_appended uuid (jwt_sign payload key) (user_tokens s) row)
              (or_intror Hrow)) as [x Hx].
  change (Jwt.jti payload) with uuid. by rewrite Hx.
Qed.

End SessionFacts.

Module SessionExtras.
Import Sql Auth Credentials JsFacts AuthFacts HeaderFacts SessionFacts.

(** X10.  A token issued by [generateAndStoreToken] is accepted by
    [authenticateJWT], as the user it was issued to, at every instant
    before its expiry (the second [issuedAt + 7 days]), on the ledger the
    issuance left: the row written carries the token's id and string.
    Assumed of jsonwebtoken: [verify] returns the signed payload while
    the clock, in seconds, is below [exp], and tokens hold no space. *)
Theorem issued_token_authenticates
    (jwt_sign : Jwt.payload -> string -> string)
    (jwt_verify : string -> option string -> Z -> option Jwt.payload)
    (JWT_SECRET : option string) (s : store) (userId deviceInfo uuid : string)
    (t0 : Z) (token : string) :
  (∀ p key clock,
      key ≠ "" -> clock / 1000 < Jwt.exp p ->
      jwt_verify (jwt_sign p key) (Some key) clock = Some p) ->
  (∀ p key, no_space (jwt_sign p key)) ->
  let issue := generateAndStoreToken jwt_sign JWT_SECRET userId deviceInfo uuid t0 s in
  result issue = inl token ->
  ∀ now,
    now / 1000 < t0 / 1000 + TOKEN_EXPIRES_IN ->
    authenticateJWT jwt_verify JWT_SECRET (bearer_header token) now (final issue)
    = (inl (Next userId), final issue, [Select UserTokens]).
Proof.
  intros Hverify Hspace issue Hres now Hlive. subst issue.
  destruct (issue_cases jwt_sign JWT_SECRET userId deviceInfo uuid t0 s)
    as [[_ Hrun]|[(key & _ & _ & _ & Hrun)|(key & -> & Hkey & Hfresh & Hrun)]];
    cbv zeta in Hrun;
    try (rewrite Hrun in Hres; discriminate Hres).
  destruct (issue_then_authenticate jwt_sign jwt_verify key s userId deviceInfo uuid
              t0 now Hverify Hspace Hkey Hfresh Hlive) as (token' & Hres' & Hauth).
  rewrite Hres in Hres'. by injection Hres' as <-.
Qed.

(** X11.  Issuing a token does not disturb the sessions that exist: the
    ledger gains exactly the row of the new token (expiring seven days
    after its issue instant), the other tables are untouched, and every
    credential with another token string authenticates exactly as it did
    before, so earlier logins of the same user stay valid. *)
Theorem issuance_keeps_other_sessions
    (jwt_sign : Jwt.payload -> string -> string)
    (jwt_verify : string -> option string -> Z -> option Jwt.payload)
    (JWT_SECRET : option string) (s : store) (userId deviceInfo uuid : string)
    (t0 : Z) (token : string) :
  let issue := generateAndStoreToken jwt_sign JWT_SECRET userId deviceInfo uuid t0 s in
  result issue = inl token ->
  (∃ row,
     user_tokens (final issue) = user_tokens s ++ [row]
     ∧ ut_id row = uuid ∧ ut_user_id row = userId ∧ ut_token row = token
     ∧ ut_expires_at row - ut_issued_at row = 7 * 24 * 60 * 60 * 1000)
  ∧ events (final issue) = events s
  ∧ event_likes (final issue) = event_likes s
  ∧ (∀ authorization now other,
       Js.bearer_token (default "" authorization) = Some other ->
       other ≠ token ->
       result (authenticateJWT jwt_verify JWT_SECRET authorization now (final issue))
       = result (authenticateJWT jwt_verify JWT_SECRET authorization now s)).
Proof.
  intros issue Hres. subst issue.
  destruct (issue_cases jwt_sign JWT_SECRET userId deviceInfo uuid t0 s)
    as [[_ Hrun]|[(key & _ & _ & _ & Hrun)|(key & -> & Hkey & Hfresh & Hrun)]];
    cbv zeta in Hrun; rewrite Hrun in Hres |- *; cbn [result final fst snd] in *;
    try discriminate Hres.
  injection Hres as <-. split; [|split; [done|split; [done|]]].
  - eexists. split; [reflexivity|]. cbn [ut_id ut_user_id ut_token ut_expires_at ut_issued_at].
    repeat split. unfold TOKEN_EXPIRES_IN. lia.
  - intros authorization now other Hb Hne.
    destruct (jwt_verify other (Some key) now) as [payload|] eqn:Hv.
    + rewrite !(authenticate_verified _ _ _ _ _ _ _ Hb Hv). cbn [result fst].
      cbn [user_tokens set_user_tokens].
      match goal with
      | |- context [user_tokens s ++ [?row]] =>
          pose proof (find_token_appended (Jwt.jti payload) other (user_tokens s) row)
            as Hfind
      end.
      cbn [ut_id ut_token] in Hfind.
      destruct (list_find _ (user_tokens s ++ _)) as [x|];
        destruct (list_find _ (user_tokens s)) as [y|]; try done.
      * destruct Hfind as [Hfind _].
        destruct (Hfind ltac:(by eexists)) as [[z Hz]|[_ Heq]]; [discriminate Hz|].
        by destruct Hne.
      * destruct Hfind as [_ Hfind].
        destruct (Hfind ltac:(left; by eexists)) as [z Hz]. discriminate Hz.
    + by rewrite !(authenticate_unverified _ _ _ _ _ _ Hb Hv).
Qed.

(** X12.  Token issuance fails closed.  Without a signing secret
    ([JWT_SECRET] unset or empty) [generateAndStoreToken] throws before
    anything is signed or sent to the store; when the generated id is
    already the id of a token row the insert is refused; in both cases
    the ledger is left as it was and no token is returned. *)
Theorem issuance_fails_closed
    (jwt_sign : Jwt.payload -> string -> string)
    (JWT_SECRET : option string) (s : store) (userId deviceInfo uuid : string)
    (t0 : Z) :
  let issue := generateAndStoreToken jwt_sign JWT_SECRET userId deviceInfo uuid t0 s in
  ((JWT_SECRET = None ∨ JWT_SECRET = Some "") ->
     issue = (inr (JsError "JWT_SECRET is not set in environment."), s, []))
  ∧ ((uuid ∈ ut_id <$> user_tokens s) ->
       ∃ e, result issue = inr e ∧ final issue = s)
  ∧ (∀ e, result issue = inr e -> final issue = s).
Proof.
  intros issue. subst issue.
  destruct (issue_cases jwt_sign JWT_SECRET userId deviceInfo uuid t0 s)
    as [[Hnone Hrun]|[(key & -> & Hkey & Hused & Hrun)|(key & -> & Hkey & Hfresh & Hrun)]];
    cbv zeta in Hrun; rewrite Hrun; cbn [result final fst snd].
  - split; [done|]. split; [eauto|done].
  - split; [by intros [?|[= ->]]|]. split; [eauto|done].
  - split; [by intros [?|[= ->]]|]. split; [done|]. intros e He. discriminate He.
Qed.

(** X13.  [authenticateJWT] is sound and read-only.  It never throws and
    never changes the store, and it sends at most one statement, a SELECT
    on [user_tokens].  It lets a request through as user [id] only when
    the header carries a bearer credential that passed verification with
    [sub = id] and the ledger holds a row whose id is the credential's
    [jti] and whose token is the credential string. *)
Theorem authentication_is_sound
    (jwt_verify : string -> option string -> Z -> option Jwt.payload)
    (JWT_SECRET : option string) (authorization : option string) (now : Z)
    (s : store) :
  let run := authenticateJWT jwt_verify JWT_SECRET authorization now s in
  final run = s
  ∧ (trace run = [] ∨ trace run = [Select UserTokens])
  ∧ (∃ outcome, result run = inl outcome)
  ∧ (∀ id,
       result run = inl (Next id) ->
       ∃ token payload row,
         Js.bearer_token (default "" authorization) = Some token
         ∧ jwt_verify token JWT_SECRET now = Some payload
         ∧ Jwt.sub payload = id
         ∧ row ∈ user_tokens s
         ∧ ut_id row = Jwt.jti payload
         ∧ ut_token row = token).
Proof.
  intros run. subst run.
  destruct (Js.bearer_token (default "" authorization)) as [token|] eqn:Hb.
  - destruct (jwt_verify token JWT_SECRET now) as [payload|] eqn:Hv.
    + rewrite (authenticate_verified _ _ _ _ _ _ _ Hb Hv). cbn [result final trace fst snd].
      split; [done|]. split; [by right|]. split; [eauto|].
      intros id Hres.
      destruct (list_find _ (user_tokens s)) as [[i row]|] eqn:Hfind; [|discriminate Hres].
      injection Hres as <-.
      apply list_find_Some in Hfind as (Hi & [Hid Htok] & _).
      exists token, payload, row. repeat split; try done.
      by eapply list_elem_of_lookup_2.
    + rewrite (authenticate_unverified _ _ _ _ _ _ Hb Hv). cbn [result final trace fst snd].
      split; [done|]. split; [by left|]. split; [eauto|]. intros id Hres. discriminate Hres.
  - rewrite (authenticate_missing _ _ _ _ _ Hb). cbn [result final trace fst snd].
    split; [done|]. split; [by left|]. split; [eauto|]. intros id Hres. discriminate Hres.
Qed.

(** X14.  The logout route.  A request whose credential is rejected is
    answered with that rejection and deletes nothing.  After a logout
    that succeeded, the header it was sent with no longer authenticates,
    at any later instant: the attempt is rejected. *)
Theorem logout_ends_the_session
    (jwt_verify : string -> option string -> Z -> option Jwt.payload)
    (JWT_SECRET : option string) (authorization : option string) (now : Z)
    (s : store) :
  let out := logout jwt_verify JWT_SECRET authorization now s in
  (∀ f,
     result (authenticateJWT jwt_verify JWT_SECRET authorization now s)
     = inl (Reject f) ->
     result out = inl (LogoutUnauthorized f)
     ∧ final out = s
     ∧ Forall (fun a => is_write a = false) (trace out))
  ∧ (result out = inl LogoutSuccess ->
       ∀ later, ∃ f,
         result (authenticateJWT jwt_verify JWT_SECRET authorization later (final out))
         = inl (Reject f)).
Proof.
  intros out. subst out. unfold logout. db_simpl.
  destruct (Js.bearer_token (default "" authorization)) as [token|] eqn:Hb.
  - destruct (jwt_verify token JWT_SECRET now) as [payload|] eqn:Hv.
    + rewrite (authenticate_verified _ _ _ _ _ _ _ Hb Hv). cbn [result final trace fst snd].
      destruct (list_find _ (user_tokens s)) as [[i row]|] eqn:Hfind.
      * split; [intros f Hf; discriminate Hf|].
        destruct token as [|c token]; [intros Hout; discriminate Hout|].
        intros _ later. rewrite revokeToken_run. cbn [result final trace fst snd].
        destruct (jwt_verify (String c token) JWT_SECRET later) as [p|] eqn:Hl.
        -- rewrite (authenticate_verified _ _ _ _ _ _ _ Hb Hl). cbn [result fst].
           cbn [user_tokens set_user_tokens]. rewrite find_token_revoked. eauto.
        -- rewrite (authenticate_unverified _ _ _ _ _ _ Hb Hl). eauto.
      * split; [|intros Hout; discriminate Hout].
        intros f [= <-]. cbn [result final trace fst snd].
        repeat split. by repeat constructor.
    + rewrite (authenticate_unverified _ _ _ _ _ _ Hb Hv). cbn [result final trace fst snd].
      split; [|intros Hout; discriminate Hout].
      intros f [= <-]. repeat split. constructor.
  - rewrite (authenticate_missing _ _ _ _ _ Hb). cbn [result final trace fst snd].
    split; [|intros Hout; discriminate Hout].
    intros f [= <-]. repeat split. constructor.
Qed.

End SessionExtras.

Module RouteExtras.
Import Sql EventModel Auth Ledger LedgerFacts LedgerMore AuthFacts EventRoutes.

Lemma tally_member v (rows : list event_like) row :
  row ∈ rows -> el_reaction row = v -> 1 <= tally v rows.
Proof.
  intros Hin Hv. unfold tally.
  assert (row ∈ filter (fun r => el_reaction r = v) rows) as Hf
    by (by apply list_elem_of_filter).
  destruct (filter _ rows); [by apply elem_of_nil in Hf|]. simpl length. lia.
Qed.

Lemma authenticate_run_shape jwt_verify JWT_SECRET authorization clock s :
  ∃ outcome t,
    authenticateJWT jwt_verify JWT_SECRET authorization clock s = (inl outcome, s, t)
    ∧ Forall (fun a => a = Select UserTokens) t.
Proof.
  destruct (Js.bearer_token (default "" authorization)) as [token|] eqn:Hb.
  - destruct (jwt_verify token JWT_SECRET clock) as [payload|] eqn:Hv.
    + rewrite (authenticate_verified _ _ _ _ _ _ _ Hb Hv).
      eexists _, _. split; [reflexivity|]. by repeat constructor.
    + rewrite (authenticate_unverified _ _ _ _ _ _ Hb Hv).
      eexists _, _. split; [reflexivity|]. constructor.
  - rewrite (authenticate_missing _ _ _ _ _ Hb).
    eexists _, _. split; [reflexivity|]. constructor.
Qed.

(** X15.  The like and dislike routes.  A request whose credential is
    rejected is answered 401 and reaches neither the events nor the
    reactions: the store is unchanged and the only statement possibly
    sent is the token lookup.  An authenticated request for an unknown
    event is answered 404 and writes nothing.  An authenticated request
    answered 200 reports the counts of the ledger after the toggle, in
    which the caller's own reaction is counted: at least one like after a
    like, at least one dislike after a dislike. *)
Theorem reaction_route_answers
    (jwt_verify : string -> option string -> Z -> option Jwt.payload)
    (JWT_SECRET : option string) (reaction : Z) (authorization : option string)
    (clock : Z) (eventId uuid : string) (now : Z) (s : store) :
  let auth := authenticateJWT jwt_verify JWT_SECRET authorization clock s in
  let run := react jwt_verify JWT_SECRET reaction authorization clock eventId uuid now s in
  (∀ f,
     result auth = inl (Reject f) ->
     result run = inl (Unauthorized f)
     ∧ final run = s
     ∧ Forall (fun a => a = Select UserTokens) (trace run))
  ∧ (∀ userId,
       result auth = inl (Next userId) ->
       ¬ event_present eventId s ->
       result run = inl EventNotFound ∧ final run = s)
  ∧ (∀ userId message n_likes n_dislikes,
       result auth = inl (Next userId) ->
       one_reaction_per_pair s ->
       result run = inl (ReactionOk message n_likes n_dislikes) ->
       final run = final (likeOrDislikeEvent eventId userId reaction uuid now s)
       ∧ n_likes = tally like (rows_on eventId (final run))
       ∧ n_dislikes = tally dislike (rows_on eventId (final run))
       ∧ (reaction = like -> 1 <= n_likes)
       ∧ (reaction = dislike -> 1 <= n_dislikes)).
Proof.
  intros auth run. subst auth run. unfold react. db_simpl.
  destruct (authenticate_run_shape jwt_verify JWT_SECRET authorization clock s)
    as (outcome & t & Hauth & Ht).
  rewrite Hauth. cbn [result final trace fst snd].
  destruct outcome as [userId|f0].
  - split; [intros f Hf; discriminate Hf|]. split.
    + intros u [= <-] Habs. rewrite (toggle_absent_run _ _ _ _ _ _ Habs). done.
    + intros u message n_likes n_dislikes [= <-] Huniq.
      pose proof (toggle_leaves_requested eventId userId reaction uuid now s) as Hpost.
      destruct (likeOrDislikeEvent eventId userId reaction uuid now s)
        as [[[r|e] s1] t1] eqn:Hrun; cbn [result final fst snd] in *;
        [|intros Hres; discriminate Hres].
      destruct (eventExists r) eqn:Hex; cbn [negb];
        [|intros Hres; discriminate Hres].
      rewrite getEventReactions_run. cbn [result final fst snd].
      intros [= <- <- <-]. split; [done|]. split; [done|]. split; [done|].
      destruct (Hpost r Huniq eq_refl Hex) as (row & Hrows & Hpol).
      assert (row ∈ rows_on eventId s1) as Hin.
      { assert (row ∈ rows_for eventId userId s1) as Hr
          by (rewrite Hrows; apply list_elem_of_here).
        unfold rows_for in Hr. apply list_elem_of_filter in Hr as [[He _] Hr].
        unfold rows_on. by apply list_elem_of_filter. }
      split; intros ->; by apply (tally_member _ _ row).
  - split.
    + intros f [= <-]. cbn [result final trace fst snd].
      split; [done|]. split; [done|]. by rewrite app_nil_r.
    + split; [intros u Hu; discriminate Hu|].
      intros u message n_likes n_dislikes Hu. discriminate Hu.
Qed.

End RouteExtras.

(** * Properties of the accounts *)

Module AccountFacts.
Import UserModel AuthRoutes Accounts.

Lemma find_user_None x users :
  findUserByUsernameOrEmail x users = None ↔ ¬ in_use x users.
Proof.
  unfold findUserByUsernameOrEmail, in_use. split.
  - intros Hnone (r & Hin & Hm).
    destruct (list_find _ users) as [p|] eqn:Hfind; [discriminate Hnone|].
    eapply list_find_None in Hfind. rewrite Forall_forall in Hfind.
    by apply (Hfind r).
  - intros Hfree.
    destruct (list_find _ users) as [[i r]|] eqn:Hfind; [|done].
    apply list_find_Some in Hfind as (Hi & Hm & _).
    destruct Hfree. exists r. split; [by eapply list_elem_of_lookup_2|done].
Qed.

Lemma find_user_Some x users r :
  findUserByUsernameOrEmail x users = Some r ->
  r ∈ users ∧ (usr_username r = x ∨ usr_email r = x).
Proof.
  unfold findUserByUsernameOrEmail.
  destruct (list_find _ users) as [[i r']|] eqn:Hfind; [|done].
  intros [= <-]. apply list_find_Some in Hfind as (Hi & Hm & _).
  split; [by eapply list_elem_of_lookup_2|done].
Qed.

Lemma matching_nil x users : matching x users = [] ↔ ¬ in_use x users.
Proof.
  unfold matching, in_use. split.
  - intros Hnil (r & Hin & Hm).
    assert (r ∈ filter (fun r => usr_username r = x ∨ usr_email r = x) users) as Hf
      by (by apply list_elem_of_filter).
    rewrite Hnil in Hf. by apply elem_of_nil in Hf.
  - intros Hfree.
    destruct (filter _ users) as [|r l] eqn:Hf; [done|].
    assert (r ∈ filter (fun r => usr_username r = x ∨ usr_email r = x) users) as Hin
      by (rewrite Hf; apply list_elem_of_here).
    apply list_elem_of_filter in Hin as [Hm Hin]. destruct Hfree. eauto.
Qed.

Lemma insert_user_cases row users :
  ((usr_id row ∈ usr_id <$> users)
   ∧ insert_user row users = (inr (SqliteConstraint "users.id"), users))
  ∨ ((usr_id row ∉ usr_id <$> users)
     ∧ (usr_username row ∈ usr_username <$> users)
     ∧ insert_user row users = (inr (SqliteConstraint "users.username"), users))
  ∨ ((usr_id row ∉ usr_id <$> users)
     ∧ (usr_username row ∉ usr_username <$> users)
     ∧ (usr_email row ∈ usr_email <$> users)
     ∧ insert_user row users = (inr (SqliteConstraint "users.email"), users))
  ∨ ((usr_id row ∉ usr_id <$> users)
     ∧ (usr_username row ∉ usr_username <$> users)
     ∧ (usr_email row ∉ usr_email <$> users)
     ∧ insert_user row users = (inl tt, users ++ [row])).
Proof.
  unfold insert_user.
  destruct (decide (usr_id row ∈ usr_id <$> users)) as [Hi|Hi].
  { left. by rewrite bool_decide_eq_true_2. }
  rewrite (bool_decide_eq_false_2 _ Hi). right.
  destruct (decide (usr_username row ∈ usr_username <$> users)) as [Hu|Hu].
  { left. by rewrite bool_decide_eq_true_2. }
  rewrite (bool_decide_eq_false_2 _ Hu). right.
  destruct (decide (usr_email row ∈ usr_email <$> users)) as [He|He].
  { left. by rewrite bool_decide_eq_true_2. }
  rewrite (bool_decide_eq_false_2 _ He). right. done.
Qed.

Lemma free_username x users :
  ¬ in_use x users -> x ∉ usr_username <$> users.
Proof.
  intros Hfree (r & -> & Hin)%list_elem_of_fmap. apply Hfree. exists r. eauto.
Qed.

Lemma free_email x users :
  ¬ in_use x users -> x ∉ usr_email <$> users.
Proof.
  intros Hfree (r & -> & Hin)%list_elem_of_fmap. apply Hfree. exists r. eauto.
Qed.

(** The three ways a registration ends. *)
Lemma register_cases bcrypt_hash value uuid salt now users :
  let run := register bcrypt_hash value uuid salt now users in
  ((in_use (rb_username value) users ∨ in_use (rb_email value) users)
   ∧ run = (inl RegisterConflict, users))
  ∨ (¬ in_use (rb_username value) users ∧ ¬ in_use (rb_email value) users
     ∧ (uuid ∈ usr_id <$> users)
     ∧ run = (inr (SqliteConstraint "users.id"), users))
  ∨ (¬ in_use (rb_username value) users ∧ ¬ in_use (rb_email value) users
     ∧ (uuid ∉ usr_id <$> users)
     ∧ run = (inl (Registered (public (new_user bcrypt_hash value uuid salt now))),
              users ++ [new_user bcrypt_hash value uuid salt now])).
Proof.
  simpl. unfold register.
  destruct (findUserByUsernameOrEmail (rb_username value) users) as [r|] eqn:Hu.
  { left. split; [|done]. left. apply find_user_Some in Hu as [Hin Hm].
    by exists r. }
  destruct (findUserByUsernameOrEmail (rb_email value) users) as [r|] eqn:He.
  { left. split; [|done]. right. apply find_user_Some in He as [Hin Hm].
    by exists r. }
  apply find_user_None in Hu, He. right. unfold createUser.
  fold (new_user bcrypt_hash value uuid salt now).
  destruct (insert_user_cases (new_user bcrypt_hash value uuid salt now) users)
    as [[Hi ->]|[(Hi & Hn & _)|[(Hi & _ & Hm & _)|(Hi & _ & _ & ->)]]].
  - left. done.
  - by destruct (free_username _ _ Hu).
  - by destruct (free_email _ _ He).
  - right. done.
Qed.

Lemma find_user_appended x users row :
  ¬ in_use x users ->
  usr_username row = x ∨ usr_email row = x ->
  findUserByUsernameOrEmail x (users ++ [row]) = Some row
  ∧ matching x (users ++ [row]) = [row].
Proof.
  intros Hfree Hm. split.
  - unfold findUserByUsernameOrEmail.
    pose proof (proj2 (find_user_None x users) Hfree) as Hnone.
    unfold findUserByUsernameOrEmail in Hnone.
    destruct (list_find _ users) as [p|] eqn:Hfind; [discriminate Hnone|].
    rewrite (list_find_app_r _ _ _ Hfind). simpl.
    by rewrite decide_True.
  - unfold matching. rewrite filter_app.
    pose proof (proj2 (matching_nil x users) Hfree) as Hnil. unfold matching in Hnil.
    rewrite Hnil. rewrite filter_cons_True by done. done.
Qed.

Lemma find_user_kept x users row r :
  findUserByUsernameOrEmail x users = Some r ->
  findUserByUsernameOrEmail x (users ++ [row]) = Some r.
Proof.
  unfold findUserByUsernameOrEmail.
  destruct (list_find _ users) as [[i r']|] eqn:Hfind; [|done].
  intros [= <-]. by rewrite (list_find_app_l _ _ _ _ _ Hfind).
Qed.

Lemma find_id_appended users row :
  (usr_id row ∉ usr_id <$> users) ->
  findUserById (usr_id row) (users ++ [row])
  = Some {| pr_id := usr_id row; pr_username := usr_username row;
            pr_email := usr_email row; pr_created_at := usr_created_at row |}.
Proof.
  intros Hfresh. unfold findUserById.
  destruct (list_find (fun r => usr_id r = usr_id row) users) as [[i r]|] eqn:Hfind.
  - apply list_find_Some in Hfind as (Hi & Hm & _). destruct Hfresh.
    apply list_elem_of_fmap. exists r. split; [done|by eapply list_elem_of_lookup_2].
  - rewrite (list_find_app_r _ _ _ Hfind). simpl. by rewrite decide_True.
Qed.

End AccountFacts.

Module AccountExtras.
Import Sql Auth UserModel AuthRoutes Accounts AccountFacts.

(** X16.  [POST /v1/auth/register] on a validated body.  It answers 409
    exactly when the username or the email of the body is the username
    or the email of a stored user, and then stores nothing.  Otherwise
    the only failure left is a collision of the generated id: the check
    made first rules out both UNIQUE constraints, and a failed insert
    stores nothing.  On 201 the table gains exactly one row, whose
    password column is the bcrypt hash, and the answer is the identity
    of that row. *)
Theorem register_answers (bcrypt_hash : string -> string -> string)
    (value : register_body) (uuid salt : string) (now : Z) (users : list user_row) :
  let run := register bcrypt_hash value uuid salt now users in
  (fst run = inl RegisterConflict
   ↔ in_use (rb_username value) users ∨ in_use (rb_email value) users)
  ∧ (fst run = inl RegisterConflict -> snd run = users)
  ∧ (∀ e, fst run = inr e ->
       snd run = users ∧ e = SqliteConstraint "users.id" ∧ (uuid ∈ usr_id <$> users))
  ∧ (∀ user, fst run = inl (Registered user) ->
       ∃ row,
         snd run = users ++ [row]
         ∧ user = public row
         ∧ usr_id row = uuid
         ∧ usr_username row = rb_username value
         ∧ usr_email row = rb_email value
         ∧ usr_password_hash row = bcrypt_hash (rb_password value) salt).
Proof.
  intros run. subst run.
  destruct (register_cases bcrypt_hash value uuid salt now users)
    as [[Huse Hrun]|[(Hu & He & Hid & Hrun)|(Hu & He & Hid & Hrun)]];
    cbv zeta in Hrun; rewrite Hrun; cbn [fst snd].
  - split; [done|]. split; [done|]. split; [intros e [=]|intros user [=]].
  - split; [split; [intros [=]|intros [?|?]; done]|].
    split; [intros [=]|]. split; [|intros user [=]].
    intros e [= <-]. done.
  - split; [split; [intros [=]|intros [?|?]; done]|].
    split; [intros [=]|]. split; [intros e [=]|].
    intros user [= <-]. eexists. split; [reflexivity|]. done.
Qed.

(** X17.  Registration keeps the constraints of the [users] table: ids,
    usernames and emails stay pairwise distinct, whatever the outcome. *)
Theorem register_keeps_users_unique (bcrypt_hash : string -> string -> string)
    (value : register_body) (uuid salt : string) (now : Z) (users : list user_row) :
  users_ok users ->
  users_ok (snd (register bcrypt_hash value uuid salt now users)).
Proof.
  intros (Hids & Hnames & Hemails).
  destruct (register_cases bcrypt_hash value uuid salt now users)
    as [[Huse Hrun]|[(Hu & He & Hid & Hrun)|(Hu & He & Hid & Hrun)]];
    cbv zeta in Hrun; rewrite Hrun; cbn [fst snd]; try done.
  unfold users_ok. rewrite !fmap_app. cbn [fmap list_fmap new_user usr_id usr_username usr_email].
  repeat split; apply NoDup_app; (split; [done|]);
    (split; [|apply NoDup_singleton]); intros x Hx ->%list_elem_of_singleton.
  - done.
  - by apply (free_username _ _ Hu).
  - by apply (free_email _ _ He).
Qed.

(** X18.  A registered user is found again.  After a 201, the username
    and the email of the body each select the new row and no other (so
    the lookup does not depend on the order in which the store yields
    rows), the generated id selects its profile, and every lookup that
    found a user before finds the same user. *)
Theorem registered_user_is_found (bcrypt_hash : string -> string -> string)
    (value : register_body) (uuid salt : string) (now : Z) (users : list user_row)
    (user : created_user) :
  let run := register bcrypt_hash value uuid salt now users in
  let row := new_user bcrypt_hash value uuid salt now in
  fst run = inl (Registered user) ->
  (∀ x, x = rb_username value ∨ x = rb_email value ->
        findUserByUsernameOrEmail x (snd run) = Some row
        ∧ matching x (snd run) = [row])
  ∧ findUserById (cu_id user) (snd run)
    = Some {| pr_id := uuid; pr_username := rb_username value;
              pr_email := rb_email value; pr_created_at := now |}
  ∧ (∀ x r, findUserByUsernameOrEmail x users = Some r ->
            findUserByUsernameOrEmail x (snd run) = Some r).
Proof.
  intros run row. subst run row.
  destruct (register_cases bcrypt_hash value uuid salt now users)
    as [[Huse Hrun]|[(Hu & He & Hid & Hrun)|(Hu & He & Hid & Hrun)]];
    cbv zeta in Hrun; rewrite Hrun; cbn [fst snd]; try (intros [=]).
  subst user. split; [|split].
  - intros x [->| ->]; apply find_user_appended; try done; [by left|by right].
  - by apply (find_id_appended users (new_user bcrypt_hash value uuid salt now)).
  - intros x r. apply find_user_kept.
Qed.

End AccountExtras.

Module LoginExtras.
Import Sql Auth Credentials UserModel AuthRoutes Accounts AccountFacts AuthFacts
       SessionFacts.

(** X19.  [POST /v1/auth/login] on a validated body.  An identity no row
    carries and a password the stored hash does not verify get the same
    401, and then no statement reaches the session ledger.  A 200 names
    a stored user whose username or email is the identity given and
    whose hash verified the password; the ledger gained one row, of that
    user, holding the token returned.  When the issuance throws, the
    ledger is left as it was. *)
Theorem login_answers
    (bcrypt_compare : string -> string -> bool)
    (jwt_sign : Jwt.payload -> string -> string)
    (JWT_SECRET : option string) (users : list user_row) (value : login_body)
    (deviceInfo uuid : string) (now : Z) (s : store) :
  let run := login bcrypt_compare jwt_sign JWT_SECRET users value deviceInfo uuid now s in
  (¬ in_use (lb_usernameOrEmail value) users ->
     run = (inl InvalidCredentials, s, []))
  ∧ (∀ row,
       findUserByUsernameOrEmail (lb_usernameOrEmail value) users = Some row ->
       bcrypt_compare (lb_password value) (usr_password_hash row) = false ->
       run = (inl InvalidCredentials, s, []))
  ∧ (∀ token user,
       result run = inl (LoggedIn token user) ->
       ∃ row trow,
         row ∈ users
         ∧ (usr_username row = lb_usernameOrEmail value
            ∨ usr_email row = lb_usernameOrEmail value)
         ∧ bcrypt_compare (lb_password value) (usr_password_hash row) = true
         ∧ user = public row
         ∧ user_tokens (final run) = user_tokens s ++ [trow]
         ∧ ut_user_id trow = usr_id row
         ∧ ut_token trow = token)
  ∧ (∀ e, result run = inr e -> final run = s).
Proof.
  intros run. subst run. unfold login, verifyPassword.
  destruct (findUserByUsernameOrEmail (lb_usernameOrEmail value) users) as [row|] eqn:Hfind.
  - pose proof (find_user_Some _ _ _ Hfind) as [Hin Hm].
    split; [intros Hfree; destruct Hfree; by exists row|].
    destruct (bcrypt_compare (lb_password value) (usr_password_hash row)) eqn:Hpw;
      cbn [negb].
    + split; [intros r [= <-] Hf; congruence|].
      db_simpl.
      destruct (issue_cases jwt_sign JWT_SECRET (usr_id row) deviceInfo uuid now s)
        as [[_ Hrun]|[(key & _ & _ & _ & Hrun)|(key & _ & _ & _ & Hrun)]];
        cbv zeta in Hrun; rewrite Hrun; cbn [result final fst snd].
      * split; [intros token user Hres; discriminate Hres|done].
      * split; [intros token user Hres; discriminate Hres|done].
      * split; [|intros e He; discriminate He].
        intros token user [= <- <-]. eexists row, _.
        split; [done|]. split; [done|]. split; [done|]. split; [done|].
        cbn [user_tokens set_user_tokens]. split; [reflexivity|]. done.
    + split; [by intros r [= <-] _|].
      split; [intros token user Hres; discriminate Hres|].
      intros e He. discriminate He.
  - split; [done|]. split; [intros row Hrow; discriminate Hrow|].
    split; [intros token user Hres; discriminate Hres|].
    intros e He. discriminate He.
Qed.

(** X20.  [GET /v1/auth/me].  A rejected credential is answered with the
    rejection; an accepted one is answered with the profile of the user
    the credential names, or 404 when no such user is stored.  Nothing
    is written. *)
Theorem me_answers
    (jwt_verify : string -> option string -> Z -> option Jwt.payload)
    (JWT_SECRET : option string) (users : list user_row)
    (authorization : option string) (now : Z) (s : store) :
  let auth := authenticateJWT jwt_verify JWT_SECRET authorization now s in
  let run := me jwt_verify JWT_SECRET users authorization now s in
  final run = s
  ∧ Forall (fun a => is_write a = false) (trace run)
  ∧ (∀ f, result auth = inl (Reject f) -> result run = inl (MeUnauthorized f))
  ∧ (∀ id, result auth = inl (Next id) ->
       (id ∉ usr_id <$> users -> result run = inl MeNotFound)
       ∧ (∀ p, result run = inl (MeProfile p) ->
            pr_id p = id
            ∧ ∃ row, row ∈ users ∧ usr_id row = id
                     ∧ pr_username p = usr_username row
                     ∧ pr_email p = usr_email row
                     ∧ pr_created_at p = usr_created_at row)).
Proof.
  intros auth run. subst auth run. unfold me. db_simpl.
  destruct (Js.bearer_token (default "" authorization)) as [token|] eqn:Hb.
  2:{ rewrite (authenticate_missing _ _ _ _ _ Hb). cbn [result final trace fst snd].
      split; [done|]. split; [constructor|]. split; [by intros f [= <-]|].
      intros id Hid. discriminate Hid. }
  destruct (jwt_verify token JWT_SECRET now) as [payload|] eqn:Hv.
  2:{ rewrite (authenticate_unverified _ _ _ _ _ _ Hb Hv). cbn [result final trace fst snd].
      split; [done|]. split; [constructor|]. split; [by intros f [= <-]|].
      intros id Hid. discriminate Hid. }
  rewrite (authenticate_verified _ _ _ _ _ _ _ Hb Hv). cbn [result final trace fst snd].
  destruct (list_find _ (user_tokens s)) as [[i trow]|] eqn:Hfind.
  - cbn [fmap option_fmap option_map].
    unfold findUserById.
    destruct (list_find (fun r => usr_id r = Jwt.sub payload) users) as [[j row]|] eqn:Hu;
      cbn [fmap option_fmap option_map snd result final trace fst].
    + split; [done|]. split; [by repeat constructor|].
      split; [intros f Hf; discriminate Hf|].
      intros id [= <-]. apply list_find_Some in Hu as (Hj & Hid & _). split.
      * intros Hfree. destruct Hfree. apply list_elem_of_fmap.
        exists row. split; [done|by eapply list_elem_of_lookup_2].
      * intros p [= <-]. cbn [pr_id pr_username pr_email pr_created_at].
        split; [done|]. exists row. split; [by eapply list_elem_of_lookup_2|done].
    + split; [done|]. split; [by repeat constructor|].
      split; [intros f Hf; discriminate Hf|].
      intros id [= <-]. split; [done|]. intros p Hp. discriminate Hp.
  - cbn [result final trace fst snd].
    split; [done|]. split; [by repeat constructor|]. split; [by intros f [= <-]|].
    intros id Hid. discriminate Hid.
Qed.

(** X21.  From registration to the profile.  A user registered with a
    password can log in with it, by username as well as by email, once
    the session id drawn is fresh and a secret is set; the login names
    the registered user, and the token it returns, sent as a bearer
    credential before its expiry, makes [GET /v1/auth/me] answer with
    the profile stored at registration.  Assumed of the libraries:
    bcrypt verifies the password against the hash it made of it, and
    jsonwebtoken verifies, before [exp], what it signed, its tokens
    holding no space. *)
Theorem registered_user_can_log_in
    (bcrypt_hash : string -> string -> string)
    (bcrypt_compare : string -> string -> bool)
    (jwt_sign : Jwt.payload -> string -> string)
    (jwt_verify : string -> option string -> Z -> option Jwt.payload)
    (key : string) (users users' : list user_row) (value : register_body)
    (uuid salt : string) (registered : Z) (user : created_user)
    (identity deviceInfo session : string) (t0 now : Z) (s : store) :
  bcrypt_compare (rb_password value) (bcrypt_hash (rb_password value) salt) = true ->
  (∀ p key clock,
      key ≠ "" -> clock / 1000 < Jwt.exp p ->
      jwt_verify (jwt_sign p key) (Some key) clock = Some p) ->
  (∀ p key, no_space (jwt_sign p key)) ->
  key ≠ "" ->
  register bcrypt_hash value uuid salt registered users = (inl (Registered user), users') ->
  identity = rb_username value ∨ identity = rb_email value ->
  (session ∉ ut_id <$> user_tokens s) ->
  now / 1000 < t0 / 1000 + TOKEN_EXPIRES_IN ->
  let entry :=
    login bcrypt_compare jwt_sign (Some key) users'
          {| lb_usernameOrEmail := identity; lb_password := rb_password value |}
          deviceInfo session t0 s in
  ∃ token,
    result entry = inl (LoggedIn token user)
    ∧ result (me jwt_verify (Some key) users' (bearer_header token) now (final entry))
      = inl (MeProfile {| pr_id := uuid; pr_username := rb_username value;
                          pr_email := rb_email value; pr_created_at := registered |}).
Proof.
  intros Hpw Hverify Hspace Hkey Hreg Hid Hfresh Hlive entry. subst entry.
  destruct (register_cases bcrypt_hash value uuid salt registered users)
    as [[Huse Hrun]|[(Hu & He & Huuid & Hrun)|(Hu & He & Huuid & Hrun)]];
    cbv zeta in Hrun; rewrite Hrun in Hreg; try discriminate Hreg.
  injection Hreg as <- <-.
  assert (findUserByUsernameOrEmail identity
            (users ++ [new_user bcrypt_hash value uuid salt registered])
          = Some (new_user bcrypt_hash value uuid salt registered)) as Hfind.
  { destruct Hid as [-> | ->]; apply find_user_appended; try done; [by left|by right]. }
  unfold login, verifyPassword. cbn [lb_usernameOrEmail lb_password].
  rewrite Hfind. cbn [new_user usr_password_hash usr_id usr_username usr_email public].
  rewrite Hpw. cbn [negb]. db_simpl.
  destruct (issue_then_authenticate jwt_sign jwt_verify key s uuid deviceInfo session
              t0 now Hverify Hspace Hkey Hfresh Hlive) as (token & Hres & Hauth).
  destruct (generateAndStoreToken jwt_sign (Some key) uuid deviceInfo session t0 s)
    as [[[tok|e] s1] t1] eqn:Hissue; cbn [result final fst snd] in *;
    [|discriminate Hres].
  injection Hres as ->. exists token. split; [done|].
  unfold me. db_simpl. rewrite Hauth. cbn [result final fst snd].
  pose proof (find_id_appended users (new_user bcrypt_hash value uuid salt registered)
                Huuid) as Hprofile.
  cbn [new_user usr_id usr_username usr_email usr_created_at] in Hprofile.
  by rewrite Hprofile.
Qed.

End LoginExtras.

Module CacheExtras.
Import Cache Routes CacheFacts.

(** X22.  When the cache answers.  Whatever the cache holds, a GET is
    answered from it exactly when it holds an entry under the request's
    URL whose [expires] is strictly later than the instant the request
    enters; an entry whose [expires] is that very instant is dropped and
    recomputed.  A request answered from the cache gets status 200 with
    the stored value and changes nothing. *)
Theorem cache_answers_iff_live (ttlMs : Z) (production : bool)
    (cache : gmap string entry) (url : string) (now later : Z) (upstream : computed) :
  let out := serve ttlMs production cache url now later upstream in
  (compute_invoked out = false ↔ ∃ e, cache !! url = Some e ∧ now < expires e)
  ∧ (∀ e, cache !! url = Some e -> now < expires e ->
       out = {| cache_after := cache; sent := {| status := 200; body := value e |};
                compute_invoked := false |})
  ∧ (∀ e, cache !! url = Some e -> expires e = now ->
       compute_invoked out = true
       ∧ sent out = handler_answer production upstream).
Proof.
  intros out. subst out.
  destruct (cache !! url) as [e|] eqn:He.
  - destruct (decide (now < expires e)) as [Hlive|Hdead].
    + rewrite (serve_hit _ _ _ _ _ _ _ _ He Hlive). cbn [compute_invoked sent].
      split; [split; [eauto|done]|]. split; [by intros e' [= <-] _|].
      intros e' [= <-] Heq. lia.
    + rewrite (serve_expired _ _ _ _ _ _ _ _ He) by lia. cbn [compute_invoked sent].
      split; [split; [done|intros (e' & [= <-] & Hlt); lia]|].
      split; [intros e' [= <-] Hlt; lia|done].
  - rewrite (serve_miss _ _ _ _ _ _ _ He). cbn [compute_invoked sent].
    split; [split; [done|intros (e' & He' & _); discriminate He']|].
    split; intros e' He'; discriminate He'.
Qed.

(** X23.  The cache is keyed by the request URL and serves GET only.  A
    GET leaves the entry of every other URL as it was, whether it is
    answered from the cache or recomputed.  A request of another method
    is passed on with [res.json] untouched: whatever is sent for it later
    is not stored. *)
Theorem cache_is_keyed_by_url (ttlMs : Z) (production : bool)
    (cache : gmap string entry) :
  (∀ url now later upstream other,
      other ≠ url ->
      cache_after (serve ttlMs production cache url now later upstream) !! other
      = cache !! other)
  ∧ (∀ req now,
       method req ≠ "GET" ->
       ∃ r,
         cache_middleware cache req now = (cache, inr r)
         ∧ ∀ b t, fst (res_json ttlMs cache r t b) = cache).
Proof.
  split.
  - intros url now later upstream other Hne.
    destruct (cache !! url) as [e|] eqn:He.
    + destruct (decide (now < expires e)) as [Hlive|Hdead].
      * by rewrite (serve_hit _ _ _ _ _ _ _ _ He Hlive).
      * rewrite (serve_expired _ _ _ _ _ _ _ _ He) by lia. cbn [cache_after].
        rewrite lookup_insert_ne by done. by rewrite lookup_delete_ne.
    + rewrite (serve_miss _ _ _ _ _ _ _ He). cbn [cache_after].
      by rewrite lookup_insert_ne.
  - intros req now Hm. exists fresh_res. unfold cache_middleware.
    rewrite bool_decide_eq_true_2 by done. split; [done|]. done.
Qed.

(** X24.  What [errorHandler] sends, for an error whose [statusCode]
    and [status] are absent, 0, or statuses [res.status] takes.  The
    status sent is the error's [statusCode] when it is not 0; else its
    [status] when that is not 0; else 500.  The body is an object whose
    first field is [error]: the error's message, or
    ["Internal Server Error"] when the message is empty.  It is followed
    by [stack], present exactly when the error has a non-empty stack and
    the process is not in production, and by [details], present exactly
    when the error has truthy details; there is no other field.  What is
    sent goes through [res.json]: with the [json] the cache middleware
    installed the body is stored under the request's key, otherwise the
    cache is left as it was. *)
Theorem error_response_shape (ttlMs : Z) (production : bool)
    (cache : gmap string entry) (err : js_error) (r : res) (now : Z) :
  (∀ n, err_statusCode err = Some n -> n = 0 ∨ sendable_status n) ->
  (∀ n, err_status err = Some n -> n = 0 ∨ sendable_status n) ->
  let out := errorHandler ttlMs production cache err r now in
  let unset (x : option Z) := x = None ∨ x = Some 0 in
  sendable_status (status (snd out))
  ∧ (∀ n, err_statusCode err = Some n -> n ≠ 0 -> status (snd out) = n)
  ∧ (unset (err_statusCode err) ->
       ∀ n, err_status err = Some n -> n ≠ 0 -> status (snd out) = n)
  ∧ (unset (err_statusCode err) -> unset (err_status err) -> status (snd out) = 500)
  ∧ (∃ message rest,
       body (snd out) = JObj (("error", JStr message) :: rest)
       ∧ (err_message err ≠ "" -> message = err_message err)
       ∧ (err_message err = "" -> message = "Internal Server Error")
       ∧ (∀ k v,
            (k, v) ∈ rest
            ↔ (k = "stack" ∧ production = false
               ∧ ∃ trace, err_stack err = Some trace ∧ trace ≠ "" ∧ v = JStr trace)
              ∨ (k = "details" ∧ err_details err = Some v ∧ truthy v = true))
       ∧ NoDup rest.*1)
  ∧ (json_patch r = None -> fst out = cache)
  ∧ (∀ key, json_patch r = Some key ->
       fst out = <[key := {| expires := now + ttlMs; value := body (snd out) |}]> cache).
Proof.
  intros Hcode Hstatus out unset. subst out unset.
  unfold errorHandler, res_json. cbn [json_patch statusCode].
  set (chosen := default (default 500 (num_truthy (err_status err)))
                         (num_truthy (err_statusCode err))).
  set (message := if bool_decide (err_message err = "")
                  then "Internal Server Error" else err_message err).
  set (stack := match str_truthy (err_stack err) with
                | Some s => if production then [] else [("stack", JStr s)]
                | None => []
                end).
  set (details := match err_details err with
                  | Some d => if truthy d then [("details", d)] else []
                  | None => []
                  end).
  assert (sendable_status chosen
          ∧ (∀ n, err_statusCode err = Some n -> n ≠ 0 -> chosen = n)
          ∧ (err_statusCode err = None ∨ err_statusCode err = Some 0 ->
               ∀ n, err_status err = Some n -> n ≠ 0 -> chosen = n)
          ∧ (err_statusCode err = None ∨ err_statusCode err = Some 0 ->
             err_status err = None ∨ err_status err = Some 0 -> chosen = 500))
    as (Hsendable & Hfirst & Hsecond & Hthird).
  { subst chosen. unfold num_truthy.
    destruct (err_statusCode err) as [n|] eqn:Hn.
    - destruct (Hcode n eq_refl) as [->|Hok].
      + rewrite bool_decide_eq_true_2 by done. simpl.
        split; [|split; [by intros m [= <-]|]].
        * destruct (err_status err) as [m|] eqn:Hm; simpl; [|unfold sendable_status; lia].
          destruct (Hstatus m eq_refl) as [->|Hok]; simpl;
            [unfold sendable_status; lia|].
          rewrite bool_decide_eq_false_2 by (unfold sendable_status in Hok; lia). done.
        * split.
          -- intros _ m -> Hm. by rewrite bool_decide_eq_false_2.
          -- intros _ [->|[= ->]]; [done|]. by rewrite bool_decide_eq_true_2.
      + rewrite bool_decide_eq_false_2 by (unfold sendable_status in Hok; lia). simpl.
        split; [done|]. split; [by intros m [= <-]|].
        unfold sendable_status in Hok.
        split; intros [Hc|[= Hc]]; try discriminate Hc; lia.
    - simpl. split; [|split; [intros m Hm; discriminate Hm|]].
      + destruct (err_status err) as [m|] eqn:Hm; simpl; [|unfold sendable_status; lia].
        destruct (Hstatus m eq_refl) as [->|Hok]; simpl;
          [unfold sendable_status; lia|].
        rewrite bool_decide_eq_false_2 by (unfold sendable_status in Hok; lia). done.
      + split.
        * intros _ m -> Hm. by rewrite bool_decide_eq_false_2.
        * intros _ [->|[= ->]]; [done|]. by rewrite bool_decide_eq_true_2. }
  assert ((err_message err ≠ "" -> message = err_message err)
          ∧ (err_message err = "" -> message = "Internal Server Error"))
    as (Hmessage & Hdefault).
  { subst message. case_bool_decide as Hm; split; done. }
  assert (∀ k v,
            (k, v) ∈ stack ++ details
            ↔ (k = "stack" ∧ production = false
               ∧ ∃ trace, err_stack err = Some trace ∧ trace ≠ "" ∧ v = JStr trace)
              ∨ (k = "details" ∧ err_details err = Some v ∧ truthy v = true))
    as Hrest.
  { intros k v.
    assert ((k, v) ∈ stack
            ↔ k = "stack" ∧ production = false
              ∧ ∃ trace, err_stack err = Some trace ∧ trace ≠ "" ∧ v = JStr trace)
      as Hstack.
    { subst stack. unfold str_truthy.
      destruct (err_stack err) as [trace|]; simpl.
      - case_bool_decide as Hempty.
        + split; [by intros ?%elem_of_nil|].
          intros (_ & _ & t & [= <-] & Ht & _). done.
        + destruct production.
          * split; [by intros ?%elem_of_nil|]. by intros (_ & Hp & _).
          * rewrite list_elem_of_singleton. split.
            -- intros [= -> ->]. split; [done|]. split; [done|]. by exists trace.
            -- by intros (-> & _ & t & [= <-] & _ & ->).
      - split; [by intros ?%elem_of_nil|]. by intros (_ & _ & t & Ht & _). }
    assert ((k, v) ∈ details
            ↔ k = "details" ∧ err_details err = Some v ∧ truthy v = true)
      as Hdetails.
    { subst details. destruct (err_details err) as [d|]; simpl.
      - destruct (truthy d) eqn:Hd.
        + rewrite list_elem_of_singleton. split.
          * by intros [= -> ->].
          * by intros (-> & [= <-] & _).
        + split; [by intros ?%elem_of_nil|]. intros (_ & [= <-] & Ht). congruence.
      - split; [by intros ?%elem_of_nil|]. by intros (_ & Hd & _). }
    rewrite elem_of_app, Hstack, Hdetails. done. }
  assert (NoDup (stack ++ details).*1) as Hnodup.
  { subst stack details.
    destruct (str_truthy (err_stack err)); [destruct production|];
      (destruct (err_details err) as [d|]; [destruct (truthy d)|]); simpl;
      apply (bool_decide_unpack _); by vm_compute. }
  destruct (json_patch r) as [key|]; cbn [fst snd status body];
    (split; [done|]); (split; [done|]); (split; [done|]); (split; [done|]);
    (split; [by eexists _, (stack ++ details)|]).
  - split; [intros Hnone; discriminate Hnone|]. by intros k [= <-].
  - split; [done|]. intros k Hk. discriminate Hk.
Qed.

End CacheExtras.

(** * The further properties at concrete stores *)

Module JwtModelSpaces.
Import JwtModel Credentials.

Lemma no_space_app a b : no_space a -> no_space b -> no_space (a +:+ b).
Proof.
  unfold no_space. induction a as [|c a IH]; [done|]. simpl.
  intros [Hc Ha]%not_elem_of_cons Hb.
  apply not_elem_of_cons. split; [done|]. by apply IH.
Qed.

Lemma hex_digits_no_space c :
  let n := N_of_ascii c in
  hex_digit (n / 16) ≠ " "%char ∧ hex_digit (n mod 16) ≠ " "%char.
Proof.
  destruct c as [[] [] [] [] [] [] [] []]; vm_compute; split; discriminate.
Qed.

Lemma hex_encode_no_space s : no_space (hex_encode s).
Proof.
  unfold no_space. induction s as [|c s IH]; [apply not_elem_of_nil|].
  destruct (hex_digits_no_space c) as [Hhi Hlo]. simpl in *.
  apply not_elem_of_cons. split; [congruence|].
  apply not_elem_of_cons. split; [congruence|done].
Qed.

Lemma dot_no_space : no_space ".".
Proof.
  unfold no_space. simpl. apply not_elem_of_cons. split; [discriminate|].
  apply not_elem_of_nil.
Qed.

Lemma sign_no_space p key : no_space (sign p key).
Proof.
  unfold sign.
  repeat (apply no_space_app; [|try apply hex_encode_no_space]);
    try apply hex_encode_no_space; apply dot_no_space.
Qed.

Lemma verify_sign_live p key clock :
  key ≠ "" -> clock / 1000 < Jwt.exp p ->
  verify (sign p key) (Some key) clock = Some p.
Proof.
  intros Hkey Hlive. rewrite JwtModelFacts.verify_sign by done.
  by rewrite bool_decide_eq_false_2 by lia.
Qed.

End JwtModelSpaces.

Module ExtraWitnesses.
Import Sql EventModel Auth Ledger Credentials EventQueries UserModel AuthRoutes Accounts.
Import Examples Scenario JwtModelSpaces.

Lemma liked_once_one_per_pair : one_reaction_per_pair liked_once.
Proof. apply LedgerWitnesses.few_rows_one_per_pair. simpl. lia. Qed.

Lemma toggle_leaves_requested_polarity_witness :
  let run := likeOrDislikeEvent "e1" "u1" dislike "r2" 20 liked_once in
  result run = inl {| eventExists := true; updated := true |}
  ∧ (∃ row,
       rows_for "e1" "u1" (final run) = [row]
       ∧ el_reaction row = dislike
       ∧ row ∈ event_likes (final run))
  ∧ (length (event_likes liked_once) ≤ length (event_likes (final run))
     ≤ S (length (event_likes liked_once)))%nat.
Proof.
  intros run. split; [reflexivity|].
  exact (LedgerExtras.toggle_leaves_requested_polarity liked_once "e1" "u1" dislike
           "r2" 20 {| eventExists := true; updated := true |}
           liked_once_one_per_pair eq_refl eq_refl).
Defined.

Lemma toggle_touches_one_pair_witness :
  let s' := final (likeOrDislikeEvent "e1" "u2" dislike "r2" 20 liked_once) in
  reaction_ids_unique liked_once
  ∧ rows_for "e1" "u2" s' = [new_reaction "r2" "e1" "u2" dislike 20]
  ∧ rows_for "e1" "u1" s' = rows_for "e1" "u1" liked_once
  ∧ events s' = events liked_once.
Proof.
  intros s'.
  assert (reaction_ids_unique liked_once) as Hids
    by (unfold reaction_ids_unique; simpl; apply NoDup_singleton).
  destruct (LedgerExtras.toggle_touches_one_pair liked_once "e1" "u2" dislike "r2" 20
              Hids) as (Hother & Hevents & _).
  split; [exact Hids|]. split; [reflexivity|]. split; [|exact Hevents].
  apply Hother. discriminate.
Defined.

Lemma reaction_ids_stay_unique_witness :
  reaction_ids_unique fresh_event
  ∧ reaction_ids_unique (run_ops (take 6 busy_afternoon) fresh_event).
Proof.
  assert (reaction_ids_unique fresh_event) as H0
    by (unfold reaction_ids_unique; simpl; apply NoDup_nil_2).
  split; [exact H0|].
  exact (LedgerExtras.reaction_ids_stay_unique busy_afternoon fresh_event H0 6).
Defined.

Lemma toggle_is_idempotent_witness :
  let first := likeOrDislikeEvent "e1" "u1" dislike "r2" 20 liked_once in
  let second := likeOrDislikeEvent "e1" "u1" dislike "r3" 30 (final first) in
  result first = inl {| eventExists := true; updated := true |}
  ∧ result second = inl {| eventExists := true; updated := false |}
  ∧ final second = final first
  ∧ Forall (fun a => is_write a = false) (trace second).
Proof.
  intros first second. split; [reflexivity|].
  exact (LedgerExtras.toggle_is_idempotent liked_once "e1" "u1" dislike "r2" "r3" 20 30
           {| eventExists := true; updated := true |} eq_refl).
Defined.

Lemma unknown_event_is_null_witness :
  events liked_once = [stop_event]
  ∧ getEventById "e0" liked_once = (inl None, liked_once, [Select Events]).
Proof.
  split; [reflexivity|].
  apply EventQueryExtras.unknown_event_is_null. simpl.
  intros [Hc|Hc]%elem_of_cons; [discriminate Hc|by apply elem_of_nil in Hc].
Defined.

Lemma issued_token_authenticates_witness :
  result (login1 Store.empty) = inl token1
  ∧ authenticateJWT JwtModel.verify env (bearer_header token1) 3600000 one_session
    = (inl (Next "u1"), one_session, [Select UserTokens]).
Proof.
  assert (result (login1 Store.empty) = inl token1) as Hlogin
    by (vm_compute; reflexivity).
  split; [exact Hlogin|].
  apply (SessionExtras.issued_token_authenticates JwtModel.sign JwtModel.verify env
           Store.empty "u1" "Mozilla/5.0" "t1" 1500 token1 verify_sign_live
           sign_no_space Hlogin 3600000).
  vm_compute. reflexivity.
Defined.

Lemma issuance_keeps_other_sessions_witness :
  result (login2 one_session) = inl token2
  ∧ user_tokens two_sessions
    = user_tokens one_session
      ++ [{| ut_id := "t2"; ut_user_id := "u1"; ut_token := token2;
             ut_expires_at := 604802000; ut_issued_at := 2000 |}]
  ∧ result (authenticateJWT JwtModel.verify env (bearer_header token1) 3600000
              two_sessions)
    = result (authenticateJWT JwtModel.verify env (bearer_header token1) 3600000
                one_session).
Proof.
  assert (result (login2 one_session) = inl token2) as Hlogin
    by (vm_compute; reflexivity).
  destruct (SessionExtras.issuance_keeps_other_sessions JwtModel.sign JwtModel.verify
              env one_session "u1" "curl/8.5" "t2" 2500 token2 Hlogin)
    as (_ & _ & _ & Hothers).
  split; [exact Hlogin|]. split; [vm_compute; reflexivity|].
  apply (Hothers (bearer_header token1) 3600000 token1).
  - vm_compute. reflexivity.
  - vm_compute. discriminate.
Defined.

Lemma no_users_ok : users_ok [].
Proof. repeat split; apply NoDup_nil_2. Qed.

Lemma register_keeps_users_unique_witness :
  users_ok []
  ∧ snd (register BcryptModel.hash alice "u1" "c2FsdDE" 2000 []) = [alice_row]
  ∧ users_ok (snd (register BcryptModel.hash alice "u1" "c2FsdDE" 2000 [])).
Proof.
  split; [exact no_users_ok|]. split; [reflexivity|].
  exact (AccountExtras.register_keeps_users_unique BcryptModel.hash alice "u1"
           "c2FsdDE" 2000 [] no_users_ok).
Defined.

Lemma registered_user_is_found_witness :
  alice_registers = (inl (Registered (public alice_row)), [bob_row; alice_row])
  ∧ findUserByUsernameOrEmail "alice@example.com" (snd alice_registers) = Some alice_row
  ∧ matching "alice" (snd alice_registers) = [alice_row]
  ∧ findUserById "u1" (snd alice_registers)
    = Some {| pr_id := "u1"; pr_username := "alice"; pr_email := "alice@example.com";
              pr_created_at := 2000 |}.
Proof.
  assert (alice_registers = (inl (Registered (public alice_row)), [bob_row; alice_row]))
    as Hrun by (vm_compute; reflexivity).
  destruct (AccountExtras.registered_user_is_found BcryptModel.hash alice "u1" "c2FsdDE"
              2000 [bob_row] (public alice_row))
    as (Hfound & Hid & _).
  { fold alice_registers. by rewrite Hrun. }
  split; [exact Hrun|]. split; [|split].
  - apply (Hfound "alice@example.com"). by right.
  - apply (Hfound "alice"). by left.
  - exact Hid.
Defined.

Lemma registered_user_can_log_in_witness :
  alice_registers = (inl (Registered (public alice_row)), [bob_row; alice_row])
  ∧ ∃ token,
      result (login BcryptModel.compare JwtModel.sign env [bob_row; alice_row]
                {| lb_usernameOrEmail := "alice@example.com";
                   lb_password := "correct horse" |}
                "Mozilla/5.0" "t1" 1500 Store.empty)
      = inl (LoggedIn token (public alice_row))
      ∧ result (me JwtModel.verify env [bob_row; alice_row] (bearer_header token)
                  3600000
                  (final (login BcryptModel.compare JwtModel.sign env
                            [bob_row; alice_row]
                            {| lb_usernameOrEmail := "alice@example.com";
                               lb_password := "correct horse" |}
                            "Mozilla/5.0" "t1" 1500 Store.empty)))
        = inl (MeProfile {| pr_id := "u1"; pr_username := "alice";
                            pr_email := "alice@example.com"; pr_created_at := 2000 |}).
Proof.
  assert (alice_registers = (inl (Registered (public alice_row)), [bob_row; alice_row]))
    as Hrun by (vm_compute; reflexivity).
  split; [exact Hrun|].
  apply (LoginExtras.registered_user_can_log_in BcryptModel.hash BcryptModel.compare
           JwtModel.sign JwtModel.verify secret [bob_row] [bob_row; alice_row] alice
           "u1" "c2FsdDE" 2000 (public alice_row) "alice@example.com" "Mozilla/5.0" "t1"
           1500 3600000 Store.empty).
  - vm_compute. reflexivity.
  - exact verify_sign_live.
  - exact sign_no_space.
  - discriminate.
  - exact Hrun.
  - by right.
  - simpl. apply not_elem_of_nil.
  - vm_compute. reflexivity.
Defined.

End ExtraWitnesses.

Module ExpiryWitnesses.
Import Sql Auth Backend Examples Scenario.


End ExpiryWitnesses.

Module CacheWitnesses.
Import Cache Scenario.

Lemma error_response_shape_witness :
  let out := errorHandler CACHE_TTL_MS true ∅ bad_gateway fresh_res 1000 in
  sendable_status (status (snd out))
  ∧ status (snd out) = 502
  ∧ fst out = ∅.
Proof.
  intros out.
  destruct (CacheExtras.error_response_shape CACHE_TTL_MS true ∅ bad_gateway fresh_res
              1000) as (Hsendable & _ & Hstatus & _ & _ & Hcache & _).
  - intros n Hn. discriminate Hn.
  - intros n [= <-]. right. unfold sendable_status. lia.
  - split; [exact Hsendable|]. split.
    + apply (Hstatus (or_introl eq_refl) 502 eq_refl). discriminate.
    + by apply Hcache.
Defined.

End CacheWitnesses.
